(** * ccf2pulse: dumping infrared codes from Pronto CCF files

    A shallow embedding of [ccf2pulse.py] and the properties of its
    scanner, validator, pulse decoder and frequency arithmetic.

    Conventions of the embedding:
    - Python integers are [Z]; Python floats are IEEE 754 binary64 values,
      modelled by Rocq's primitive [float] (same format, same rounding);
    - the memory-mapped file is a [list byte];
    - a Python exception is a value of [exn], carried by [result];
    - [print] appends a [line] to the output carried by [io]. *)

From Stdlib Require Import String.
From Stdlib Require Import ZArith List Sorted Lia Bool QArith Qround.
From Stdlib Require Import Floats.
From Stdlib Require Import Strings.Byte.
Import ListNotations.
Open Scope Z_scope.
Set Warnings "-inexact-float".

(** ** Exceptions and results *)

Inductive exn : Type :=
| RuntimeError        (* 'CCF file magic not found - not a CCF file?' *)
| IndexError          (* mmap index out of range *)
| StructError         (* struct.error of unpack_from *)
| ZeroDivisionError
| OverflowError
| ValueError.

Inductive result (A : Type) : Type :=
| Ok (a : A)
| Raise (e : exn).
Arguments Ok {A} a.
Arguments Raise {A} e.

Definition rbind {A B} (c : result A) (k : A -> result B) : result B :=
  match c with
  | Ok a => k a
  | Raise e => Raise e
  end.

Declare Scope result_scope.
Delimit Scope result_scope with result.
Notation "x <- c ;; k" := (rbind c (fun x => k))
  (at level 61, c at next level, right associativity) : result_scope.
Notation "' p <- c ;; k" := (rbind c (fun x => let 'p := x in k))
  (at level 61, p pattern, c at next level, right associativity) : result_scope.

(** [xs = [ f(x) for x in xs ]] where [f] may raise: left to right, the
    first exception wins. *)
Fixpoint map_result {A B} (f : A -> result B) (xs : list A) : result (list B) :=
  match xs with
  | [] => Ok []
  | x :: t =>
      match f x with
      | Ok y =>
          match map_result f t with
          | Ok ys => Ok (y :: ys)
          | Raise e => Raise e
          end
      | Raise e => Raise e
      end
  end.

(** ** Bytes and the mapped buffer *)

Definition buffer := list byte.

Definition byte_to_Z (x : byte) : Z := Z.of_N (Byte.to_N x).

Definition len (b : buffer) : Z := Z.of_nat (List.length b).

(** [b[i]] on an mmap object: a negative index counts from the end, an
    index outside the buffer raises IndexError. *)
Definition getitem (b : buffer) (i : Z) : result Z :=
  let i' := if i <? 0 then i + len b else i in
  if (i' <? 0) || (len b <=? i') then Raise IndexError
  else Ok (byte_to_Z (nth (Z.to_nat i') b x00)).

(** [b[lo:hi]]: a slice is clipped to the buffer and never raises.  Every
    slice of the program has non-negative bounds. *)
Definition slice (b : buffer) (lo hi : Z) : list byte :=
  firstn (Z.to_nat (hi - lo)) (skipn (Z.to_nat lo) b).

Fixpoint bytes_eqb (x y : list byte) : bool :=
  match x, y with
  | [], [] => true
  | a :: x', c :: y' => Byte.eqb a c && bytes_eqb x' y'
  | _, _ => false
  end.

(** ** Floating point

    [float] is binary64 with round-to-nearest-even, as Python's float. *)

(** Conversion of a Python int to float, correctly rounded; an int too
    large for a double raises OverflowError. *)
Definition float_of_int (z : Z) : result float :=
  let f := SF2Prim (binary_normalize prec emax z 0 false) in
  if is_infinity f then Raise OverflowError else Ok f.

(** [int(f)]: truncation toward zero. *)
Definition int_of_float (f : float) : result Z :=
  match Prim2SF f with
  | S754_zero _ => Ok 0
  | S754_finite s m e =>
      let v := if 0 <=? e then Z.pos m * 2 ^ e else Z.pos m / 2 ^ (- e) in
      Ok (if s then - v else v)
  | S754_infinity _ => Raise OverflowError
  | S754_nan => Raise ValueError
  end.

(** [x / y] on floats raises when the divisor is zero. *)
Definition float_div (x y : float) : result float :=
  if PrimFloat.eqb y 0%float then Raise ZeroDivisionError
  else Ok (PrimFloat.div x y).

(** [n * c] with [n] an int and [c] a float. *)
Definition int_mul_float (n : Z) (c : float) : result float :=
  (f <- float_of_int n ;; Ok (PrimFloat.mul f c))%result.

(** A Python int as an exact operand of a division: mantissa [z], exponent 0. *)
Definition exact_operand (z : Z) : spec_float :=
  match z with
  | 0 => S754_zero false
  | Z.pos p => S754_finite false p 0
  | Z.neg p => S754_finite true p 0
  end.

(** [a / b] with both operands ints: true division.  Python rounds the
    exact quotient once and raises OverflowError only when that quotient
    is too large.  Operands below 2^53 in magnitude (a 16-bit field and a
    result of [freq2k] at every call) convert exactly and are divided as
    doubles; larger ones are divided exactly and rounded. *)
Definition int_truediv (a b : Z) : result float :=
  if b =? 0 then Raise ZeroDivisionError
  else if (Z.abs a <? 2 ^ 53) && (Z.abs b <? 2 ^ 53) then
    (fa <- float_of_int a ;; fb <- float_of_int b ;;
     Ok (PrimFloat.div fa fb))%result
  else
    let q := SF2Prim (SFdiv prec emax (exact_operand a) (exact_operand b)) in
    if is_infinity q then Raise OverflowError else Ok q.

Definition to_khz (k : Z) : result float :=
  (d <- int_mul_float k 0.241246%float ;;
   q <- float_div 1000000.0%float d ;;
   float_div q 1000.0%float)%result.

Definition to_usec (x k : Z) : result Z :=
  (p <- int_mul_float (x * k) 0.241246%float ;;
   int_of_float p)%result.

Definition rescale (x old_k k : Z) : result Z :=
  (q <- int_truediv old_k k ;;
   fx <- float_of_int x ;;
   int_of_float (PrimFloat.mul q fx))%result.

Definition freq2k (freq : Z) : result Z :=
  (d <- int_mul_float freq 0.241246%float ;;
   q <- float_div 1000000.0%float d ;;
   int_of_float q)%result.

(** ** Binary structs

    [struct.Struct('>...')]: big-endian, no alignment.  Only the format
    characters of the program are modelled. *)

Inductive fmt_item : Type :=
| FmtH                 (* H: unsigned 16 bit *)
| FmtI                 (* I: unsigned 32 bit *)
| FmtPad (n : nat).    (* nx: n pad bytes *)

Definition item_size (it : fmt_item) : nat :=
  match it with
  | FmtH => 2
  | FmtI => 4
  | FmtPad n => n
  end.

Definition calcsize (fmt : list fmt_item) : nat :=
  fold_right (fun it s => (item_size it + s)%nat) 0%nat fmt.

Definition be_uint (bs : list byte) : Z :=
  fold_left (fun acc x => acc * 256 + byte_to_Z x) bs 0.

Fixpoint decode (fmt : list fmt_item) (bs : list byte) : list Z :=
  match fmt with
  | [] => []
  | FmtPad n :: fmt' => decode fmt' (skipn n bs)
  | it :: fmt' =>
      be_uint (firstn (item_size it) bs) :: decode fmt' (skipn (item_size it) bs)
  end.

(** [fmt.unpack_from(b, offset)] as CPython implements it: a negative
    offset counts from the end and must leave room for the whole struct;
    a window that does not fit in the buffer raises struct.error. *)
Definition unpack_from (fmt : list fmt_item) (b : buffer) (offset : Z)
  : result (list Z) :=
  let size := Z.of_nat (calcsize fmt) in
  (off <- (if offset <? 0 then
             if 0 <? offset + size then Raise StructError
             else if offset + len b <? 0 then Raise StructError
             else Ok (offset + len b)
           else Ok offset) ;;
   if len b - off <? size then Raise StructError
   else Ok (decode fmt (slice b off (off + size))))%result.

(** code_fmt = struct.Struct('>HI2xHHH'), pair_fmt = struct.Struct('>HH') *)
Definition code_fmt : list fmt_item := [FmtH; FmtI; FmtPad 2; FmtH; FmtH; FmtH].
Definition pair_fmt : list fmt_item := [FmtH; FmtH].

(** The [for k in range(n)] loop of [unpack_seq], with its two variables
    [o] and [r]. *)
Fixpoint unpack_seq_loop (b : buffer) (i : Z) (count : nat) (o : Z) (r : list Z)
  : result (list Z) :=
  match count with
  | O => Ok r
  | S count' =>
      match unpack_from pair_fmt b (i + o) with
      | Ok [on; off] => unpack_seq_loop b i count' (o + 4) (r ++ [on] ++ [off])
      | Ok _ => Raise ValueError
      | Raise e => Raise e
      end
  end.

Definition unpack_seq (b : buffer) (i n : Z) : result (list Z) :=
  unpack_seq_loop b i (Z.to_nat n) 0 [].

(** ** Output *)

(** One value per [print] call of the program; the text layout of a line
    (number formatting, indentation) is left to the formatter. *)
Inductive line : Type :=
| Button (name : list byte)
    (* 'Button: ' + name.decode('latin1') *)
| Carrier (khz : float) (baseP : Z)
    (* '    Carrier: {to_khz(baseP):.2f} kHz (0x{baseP:x})' *)
| Header (baseP once_k repeat_k : Z)
    (* '    Header:  0000 {baseP:04x} {once_k:04x} {repeat_k:04x}' *)
| PairsTitle (name : string) (pairs : Z) (usec : bool)
    (* '    {name} ({len(xs)//2} on/off pairs[, in µs, decimal]):' *)
| Seq (xs : list Z) (indent : Z) (hex : bool).
    (* format_seq(xs, indent, hex), printed only when it is not empty *)

Definition io (A : Type) : Type := (list line * result A)%type.

Definition ret {A} (a : A) : io A := ([], Ok a).

Definition bind {A B} (c : io A) (k : A -> io B) : io B :=
  match c with
  | (out, Ok a) => let (out', r) := k a in (out ++ out', r)
  | (out, Raise e) => (out, Raise e)
  end.

Definition print (l : line) : io unit := ([l], Ok tt).

Definition lift {A} (r : result A) : io A := ([], r).

Declare Scope io_scope.
Delimit Scope io_scope with io.
Notation "x <- c ;; k" := (bind c (fun x => k))
  (at level 61, c at next level, right associativity) : io_scope.
Notation "c1 ;;; c2" := (bind c1 (fun _ => c2))
  (at level 61, right associativity) : io_scope.

(** ** Command line *)

Record Args : Type := mkArgs {
  args_lirc : bool;               (* --lirc *)
  args_rescale : option Z;        (* --rescale HZ, None when absent *)
  args_carrier : Z                (* --carrier HZ, default 40000 *)
}.

Definition default_args : Args := mkArgs false None 40000.

(** ** Dumping a button *)

Definition dump_pairs (xs : list Z) (name : string) (base : Z) (args : Args)
  : io unit :=
  (xs' <- (if args_lirc args then
             print (PairsTitle name (Z.of_nat (List.length xs) / 2) true) ;;;
             lift (map_result (fun x => to_usec x base) xs)
           else
             print (PairsTitle name (Z.of_nat (List.length xs) / 2) false) ;;;
             match args_rescale args with
             | Some hz =>
                 if hz =? 0 then ret xs
                 else
                   k <- lift (freq2k hz) ;;
                   lift (map_result (fun x => rescale x base k) xs)
             | None => ret xs
             end) ;;
   match xs' with
   | [] => ret tt
   | _ :: _ => print (Seq xs' 8 (negb (args_lirc args)))
   end)%io.

(** The body of the [if] of [dump_button]: what is printed for a
    candidate whose size field is consistent. *)
Definition dump_block (b : buffer) (i j base once_k repeat_k : Z) (args : Args)
  : io unit :=
  (l <- lift (getitem b j) ;;
   print (Button (slice b (j + 1) (j + 1 + l))) ;;;
   baseP <- match args_rescale args with
            | Some hz => if hz =? 0 then ret base else lift (freq2k hz)
            | None => ret base
            end ;;
   khz <- lift (to_khz baseP) ;;
   print (Carrier khz baseP) ;;;
   print (Header baseP once_k repeat_k) ;;;
   xs <- lift (unpack_seq b (i + 8) once_k) ;;
   dump_pairs xs "once" base args ;;;
   xs <- lift (unpack_seq b (i + 8 + once_k * 4) repeat_k) ;;
   dump_pairs xs "repeat" base args)%io.

Definition dump_button (b : buffer) (i : Z) (args : Args) : io unit :=
  (hdr <- lift (unpack_from code_fmt b (i - 6)) ;;
   match hdr with
   | [n; j; base; once_k; repeat_k] =>
       if n =? 6 + 8 + (once_k + repeat_k) * (2 + 2)
       then dump_block b i j base once_k repeat_k args
       else ret tt
   | _ => lift (Raise ValueError)
   end)%io.

(** ** The scanner *)

Fixpoint starts_with (sub l : list byte) : bool :=
  match sub, l with
  | [], _ => true
  | s :: sub', x :: l' => Byte.eqb s x && starts_with sub' l'
  | _ :: _, [] => false
  end.

Fixpoint find_from (sub l : list byte) (pos : Z) : Z :=
  match l with
  | [] => -1
  | _ :: t => if starts_with sub l then pos else find_from sub t (pos + 1)
  end.

(** [b.find(sub, start)] for a non-empty [sub] and [0 <= start]: the
    lowest index at or after [start] where [sub] occurs, or -1. *)
Definition find (b : buffer) (sub : list byte) (start : Z) : Z :=
  find_from sub (skipn (Z.to_nat start) b) start.

Definition pat : list byte := [x00; x00; x00].

(** b'@\xa5Z@_CCF' and b'CCF\x00' *)
Definition magic1 : list byte := [x40; xa5; x5a; x40; x5f; x43; x43; x46].
Definition magic2 : list byte := [x43; x43; x46; x00].

(** Python's [and]: the right operand is evaluated only when the left one
    is true. *)
Definition py_and (l r : result bool) : result bool :=
  match l with
  | Ok true => r
  | _ => l
  end.

(** The condition of the [if] that guards [dump_button]. *)
Definition heuristic (b : buffer) (i k_low k_high : Z) : result bool :=
  py_and (x <- getitem b (i + 4) ;; Ok (x =? 0))%result
 (py_and (x <- getitem b (i + 6) ;; Ok (x =? 0))%result
 (py_and (x <- getitem b (i + 3) ;; Ok (k_low <? x))%result
         (x <- getitem b (i + 3) ;; Ok (x <? k_high))%result)).

(** What one pass through the body of [while True] decides. *)
Inductive step : Type :=
| Break
| Continue (off : Z).

(** The output of one call of [dump_button], tagged with the marker
    offset it was called at.  The tag is not printed; the text written by
    a run is [stdout] of its trace. *)
Record report : Type := mkReport {
  marker : Z;
  printed : list line
}.

Definition trace := list report.

Definition stdout (t : trace) : list line := concat (map printed t).

(** The body of the [while True] loop, started with the search offset
    [off]. *)
Definition iteration (b : buffer) (k_low k_high : Z) (args : Args) (off : Z)
  : trace * result step :=
  let i := find b pat off in
  if i =? -1 then ([], Ok Break)
  else
    match heuristic b i k_low k_high with
    | Raise e => ([], Raise e)
    | Ok false => ([], Ok (Continue (i + len pat)))
    | Ok true =>
        match dump_button b i args with
        | (out, Ok _) => ([mkReport i out], Ok (Continue (i + len pat)))
        | (out, Raise e) => ([mkReport i out], Raise e)
        end
    end.

(** The loop, unrolled at most [fuel] times; [None] when [fuel] passes
    did not reach [break] or an exception. *)
Fixpoint scan (fuel : nat) (b : buffer) (k_low k_high : Z) (args : Args) (off : Z)
  : option (trace * result unit) :=
  match fuel with
  | O => None
  | S fuel' =>
      match iteration b k_low k_high args off with
      | (t, Raise e) => Some (t, Raise e)
      | (t, Ok Break) => Some (t, Ok tt)
      | (t, Ok (Continue off')) =>
          match scan fuel' b k_low k_high args off' with
          | Some (t', r) => Some (t ++ t', r)
          | None => None
          end
      end
  end.

(** [k_low, k_high = int(k * 0.97), int(k * 1.03)] with
    [k = freq2k(args.carrier)]. *)
Definition band (carrier : Z) : result (Z * Z) :=
  (k <- freq2k carrier ;;
   lo <- int_mul_float k 0.97%float ;;
   k_low <- int_of_float lo ;;
   hi <- int_mul_float k 1.03%float ;;
   k_high <- int_of_float hi ;;
   Ok (k_low, k_high))%result.

Definition magic_ok (b : buffer) : bool :=
  bytes_eqb (slice b 8 16) magic1 && bytes_eqb (slice b 32 36) magic2.

(** [search_ccf]: [b] is the content of the file.  [mmap.mmap] refuses
    an empty file with ValueError, after the band has been computed and
    before the magic is read.  The loop is unrolled [length b + 1] times,
    which is enough for it to finish (see [scan_enough_fuel]). *)
Definition search_ccf (args : Args) (b : buffer) : option (trace * result unit) :=
  match band (args_carrier args) with
  | Raise e => Some ([], Raise e)
  | Ok (k_low, k_high) =>
      match b with
      | [] => Some ([], Raise ValueError)
      | _ :: _ =>
          if negb (magic_ok b) then Some ([], Raise RuntimeError)
          else scan (S (List.length b)) b k_low k_high args 0
      end
  end.

(** ** Reading the buffer at an offset

    The vocabulary in which the properties below name the bytes and the
    big-endian fields of the file. *)

Definition byte_at (b : buffer) (p : Z) : Z :=
  byte_to_Z (nth (Z.to_nat p) b x00).

Definition u16_at (b : buffer) (p : Z) : Z :=
  byte_at b p * 256 + byte_at b (p + 1).

Definition u32_at (b : buffer) (p : Z) : Z :=
  ((byte_at b p * 256 + byte_at b (p + 1)) * 256 + byte_at b (p + 2)) * 256
  + byte_at b (p + 3).

(** The [2n] values of [n] on/off pairs stored from offset [p] on. *)
Fixpoint pairs_at (b : buffer) (p : Z) (n : nat) : list Z :=
  match n with
  | O => []
  | S n' => u16_at b p :: u16_at b (p + 2) :: pairs_at b (p + 4) n'
  end.

(** Marker offsets of the reports that printed something. *)
Definition reported_offsets (t : trace) : list Z :=
  map marker (filter (fun r => match printed r with [] => false | _ => true end) t).

(** ** Sample files *)

Definition byte_of_Z (z : Z) : byte :=
  match Byte.of_N (Z.to_N z) with
  | Some x => x
  | None => x00
  end.

Definition enc16 (z : Z) : list Z := [z / 256; z mod 256].

Definition enc32 (z : Z) : list Z :=
  [z / 16777216; (z / 65536) mod 256; (z / 256) mod 256; z mod 256].

(** The first 36 bytes of a CCF file: eight bytes, the first signature,
    sixteen bytes, the second signature. *)
Definition ccf_prefix : list Z :=
  repeat 1 8 ++ [0x40; 0xa5; 0x5a; 0x40; 0x5f; 0x43; 0x43; 0x46]
  ++ repeat 1 16 ++ [0x43; 0x43; 0x46; 0x00].

(** A button code block: size, name offset, two zero bytes, carrier
    factor, the two pair counts, the pulse widths. *)
Definition button_block (size name_offset k : Z) (once_seq repeat_seq : list Z)
  : list Z :=
  enc16 size ++ enc32 name_offset ++ [0; 0] ++ enc16 k
  ++ enc16 (Z.of_nat (length once_seq) / 2)
  ++ enc16 (Z.of_nat (length repeat_seq) / 2)
  ++ flat_map enc16 (once_seq ++ repeat_seq).

(** b'\x05Power' and b'\x03Off' *)
Definition name_power : list Z := [5; 80; 111; 119; 101; 114].
Definition name_off : list Z := [3; 79; 102; 102].

(** One button "Power" with carrier factor [k] and two pairs holding the
    width [w] and 0x18: the block at offset 36 (marker at 42), the name at
    offset 58. *)
Definition ccf_power (k w : Z) : buffer :=
  map byte_of_Z
    (ccf_prefix ++ button_block 22 58 k [w; 0x18; w; 0x18] [] ++ name_power).

(** Two buttons: blocks at offsets 36 and 58 (markers at 42 and 64), the
    first with the size field [size1] and the name at [name1], the second
    well formed with the name at [name2]; "Power" is stored at offset 80
    and "Off" at offset 86. *)
Definition ccf_two (size1 name1 name2 : Z) : buffer :=
  map byte_of_Z
    (ccf_prefix
     ++ button_block size1 name1 103 [0x60; 0x18; 0x60; 0x18] []
     ++ button_block 22 name2 103 [0x60; 0x30] [0x60; 0x18]
     ++ name_power ++ name_off).

(** What a default run reports on the two well-formed buttons. *)
Definition two_buttons_trace : trace :=
  Eval vm_compute in
    match search_ccf default_args (ccf_two 22 80 86) with
    | Some (t, _) => t
    | None => []
    end.

(** ** Vocabulary of the properties *)

(** A result that is not the magic error of [search_ccf]. *)
Definition benign {A} (r : result A) : Prop :=
  match r with
  | Raise RuntimeError => False
  | _ => True
  end.

(** The lines of pulse widths among the printed lines. *)
Definition pulse_lines (out : list line) : list line :=
  filter (fun l => match l with Seq _ _ _ => true | _ => false end) out.

(** The line [dump_pairs] prints for the widths [ys] under --lirc. *)
Definition usec_line (ys : list Z) : list line :=
  match ys with
  | [] => []
  | _ :: _ => [Seq ys 8 false]
  end.

(** The two-button file cut after the length byte of "Off": the name of
    the first button (offset 86, length 3) would need the bytes 87 to 89
    of a buffer of 87 bytes. *)
Definition ccf_cut_name : buffer := firstn 87 (ccf_two 22 86 80).

(** What [dump_button] prints for the button of [ccf_power 103 96] under
    --lirc --rescale 38000. *)
Definition power_lirc_rescale_out : list line :=
  Eval vm_compute in
    fst (dump_button (ccf_power 103 96) 42 (mkArgs true (Some 38000) 40000)).

(** ** The specification's formulas, in exact arithmetic

    Written after the words of the specification, to be compared with
    the definitions above. *)

(** k_target = floor(1000000 / (carrier_Hz × 0.241246)),
    k_low = floor(0.97 × k_target), k_high = ceil(1.03 × k_target). *)
Definition claimed_band (carrier : Z) : Z * Z :=
  let k_target :=
    Qfloor (inject_Z 1000000 / (inject_Z carrier * (241246 # 1000000)))%Q in
  (Qfloor ((97 # 100) * inject_Z k_target)%Q,
   Qceiling ((103 # 100) * inject_Z k_target)%Q).

(** b[i+4] = 0, b[i+6] = 0 and b[i+3] within [k_low, k_high]. *)
Definition claimed_heuristic (carrier : Z) (b : buffer) (i : Z) : bool :=
  let (k_low, k_high) := claimed_band carrier in
  (byte_at b (i + 4) =? 0) && (byte_at b (i + 6) =? 0)
  && (k_low <=? byte_at b (i + 3)) && (byte_at b (i + 3) <=? k_high).

(** floor((old_k / new_k) × x) of the exact rational product. *)
Definition rescale_exact (x old_k new_k : Z) : Z :=
  Qfloor ((inject_Z old_k / inject_Z new_k) * inject_Z x)%Q.

(** The rational number a finite double stands for. *)
Definition float_value (f : float) : option Q :=
  match Prim2SF f with
  | S754_zero _ => Some 0%Q
  | S754_finite s m e =>
      let v := if 0 <=? e then inject_Z (Z.pos m * 2 ^ e)
               else (Z.pos m # Pos.pow 2 (Z.to_pos (- e))) in
      Some (if s then (- v)%Q else v)
  | S754_infinity _ => None
  | S754_nan => None
  end.

(** Truncation of a rational toward zero. *)
Definition Qtrunc (v : Q) : Z :=
  if Qle_bool 0 v then Qfloor v else Qceiling v.

From Stdlib Require HexadecimalString DecimalString HexadecimalN DecimalZ.
From Stdlib Require HexadecimalPos DecimalPos.

(** ** Further vocabulary *)

(** Three zero bytes start at offset [p] of the buffer. *)
Definition marker_at (b : buffer) (p : Z) : Prop :=
  0 <= p /\ p + 3 <= len b /\
  byte_at b p = 0 /\ byte_at b (p + 1) = 0 /\ byte_at b (p + 2) = 0.

(** What holds of every call of the validator: it is made at a marker
    that passes the test of the scanner, and its output is recorded. *)
Definition candidate (b : buffer) (k_low k_high : Z) (args : Args) (rp : report)
  : Prop :=
  marker_at b (marker rp) /\
  marker rp + 6 < len b /\
  byte_at b (marker rp + 4) = 0 /\ byte_at b (marker rp + 6) = 0 /\
  k_low < byte_at b (marker rp + 3) < k_high /\
  printed rp = fst (dump_button b (marker rp) args).

(** What [dump_pairs] does to one width, under the options [args]. *)
Definition width_conversion (args : Args) (base x : Z) : result Z :=
  if args_lirc args then to_usec x base
  else
    match args_rescale args with
    | Some hz =>
        if hz =? 0 then Ok x
        else (k <- freq2k hz ;; rescale x base k)%result
    | None => Ok x
    end.

(** The carrier factor [dump_button] shows in the carrier and header
    lines: the one of --rescale when that option is given and not 0,
    the one of the file otherwise. *)
Definition carrier_shown (args : Args) (base : Z) : result Z :=
  match args_rescale args with
  | Some hz => if hz =? 0 then Ok base else freq2k hz
  | None => Ok base
  end.

(** The line [dump_pairs] prints for the widths [ys]. *)
Definition seq_line (args : Args) (ys : list Z) : list line :=
  match ys with
  | [] => []
  | _ :: _ => [Seq ys 8 (negb (args_lirc args))]
  end.

(** [f] holds for the [n] integers from [start] on. *)
Fixpoint all_from (f : Z -> bool) (start : Z) (n : nat) : bool :=
  match n with
  | O => true
  | S n' => f start && all_from f (start + 1) n'
  end.

(** [to_khz k] returns. *)
Definition to_khz_returns (k : Z) : bool :=
  match to_khz k with
  | Ok _ => true
  | Raise _ => false
  end.

(** [k / k] is the double 1.0. *)
Definition self_quotient_is_one (k : Z) : bool :=
  match int_truediv k k with
  | Ok q => PrimFloat.Leibniz.eqb q 1%float
  | Raise _ => false
  end.

(** [int(1.0 * x)] is [x]. *)
Definition one_times_is_exact (x : Z) : bool :=
  match (fx <- float_of_int x ;; int_of_float (PrimFloat.mul 1%float fx))%result with
  | Ok r => r =? x
  | Raise _ => false
  end.

(** ** Formatting a sequence *)

(** [c * n] for a one-character string [c]. *)
Fixpoint rep_char (c : Ascii.ascii) (n : nat) : string :=
  match n with
  | O => EmptyString
  | S n' => String c (rep_char c n')
  end.

Module Chars.
Import Ascii.
Definition minus : ascii := "-"%char.
Definition zero : ascii := "0"%char.
Definition space : ascii := " "%char.
End Chars.

Definition newline : Ascii.ascii := Ascii.ascii_of_nat 10.

(** [f'{x:04x}']: lower-case hexadecimal, the sign first, filled with
    zeros to four characters. *)
Definition fmt_04x (x : Z) : string :=
  let digits :=
    HexadecimalString.NilZero.string_of_uint (N.to_hex_uint (Z.abs_N x)) in
  if x <? 0
  then String Chars.minus (rep_char Chars.zero (3 - String.length digits) ++ digits)
  else (rep_char Chars.zero (4 - String.length digits) ++ digits)%string.

(** [f'{x:4d}']: decimal, filled with spaces on the left to four
    characters. *)
Definition fmt_4d (x : Z) : string :=
  let s := DecimalString.NilZero.string_of_int (Z.to_int x) in
  (rep_char Chars.space (4 - String.length s) ++ s)%string.

(** The pieces the loop of [format_seq] appends, [i] being the count of
    [enumerate(xs, 1)]. *)
Fixpoint format_seq_loop (xs : list Z) (i indent : Z) (hex : bool) : list string :=
  match xs with
  | [] => []
  | x :: t =>
      ((if hex then fmt_04x x else fmt_4d x)
       :: (if i mod 6 =? 0
           then [String newline (rep_char Chars.space (Z.to_nat indent))]
           else " "%string :: (if i mod 2 =? 0 then [" "%string] else [])))
      ++ format_seq_loop t (i + 1) indent hex
  end.

Definition format_seq (xs : list Z) (indent : Z) (hex : bool) : string :=
  match xs with
  | [] => EmptyString
  | _ :: _ =>
      String.concat "" (rep_char Chars.space (Z.to_nat indent)
                        :: format_seq_loop xs 1 indent hex)
  end.

(** Reading the text back: [str.split()] and the value of a numeral. *)

Definition is_space (c : Ascii.ascii) : bool :=
  Ascii.eqb c Chars.space || Ascii.eqb c newline.

Fixpoint split_ws (cur s : string) : list string :=
  match s with
  | EmptyString =>
      match cur with
      | EmptyString => []
      | _ => [cur]
      end
  | String c s' =>
      if is_space c then
        match cur with
        | EmptyString => split_ws EmptyString s'
        | _ => cur :: split_ws EmptyString s'
        end
      else split_ws (cur ++ String c EmptyString) s'
  end.

Definition words (s : string) : list string := split_ws EmptyString s.

Definition numeral_value (hex : bool) (s : string) : option Z :=
  if hex
  then option_map Z.of_hex_int (HexadecimalString.NilZero.int_of_string s)
  else option_map Z.of_int (DecimalString.NilZero.int_of_string s).

(** No character of [s] is white space; every character of [s] is. *)
Fixpoint no_space (s : string) : bool :=
  match s with
  | EmptyString => true
  | String c s' => negb (is_space c) && no_space s'
  end.

Fixpoint all_space (s : string) : bool :=
  match s with
  | EmptyString => true
  | String c s' => is_space c && all_space s'
  end.

(** [k] leading zero digits before the hexadecimal numeral [d]. *)
Fixpoint pad_zero (k : nat) (d : Hexadecimal.uint) : Hexadecimal.uint :=
  match k with
  | O => d
  | S k' => Hexadecimal.D0 (pad_zero k' d)
  end.

(** How often the character [c] occurs in [s]. *)
Fixpoint count_char (c : Ascii.ascii) (s : string) : nat :=
  match s with
  | EmptyString => 0
  | String a s' => (if Ascii.eqb a c then 1 else 0) + count_char c s'
  end.

(** [str.split('\n')]: the lines of a text. *)
Fixpoint split_lines (cur s : string) : list string :=
  match s with
  | EmptyString => [cur]
  | String c s' =>
      if Ascii.eqb c newline then cur :: split_lines EmptyString s'
      else split_lines (cur ++ String c EmptyString) s'
  end.

Definition lines (s : string) : list string := split_lines EmptyString s.

(** [xs] cut into rows of six, [cur] being the row under way; the last
    row holds what is left over. *)
Fixpoint rows_from (cur xs : list Z) : list (list Z) :=
  match xs with
  | [] => [cur]
  | x :: t =>
      if (List.length cur =? 5)%nat then (cur ++ [x]) :: rows_from [] t
      else rows_from (cur ++ [x]) t
  end.

(** ** The carrier factor in exact arithmetic *)

(** floor(1000000 / (freq × 0.241246)) of the exact quotient. *)
Definition exact_k (freq : Z) : Z := 1000000000000 / (241246 * freq).

Definition freq2k_is_exact (freq : Z) : bool :=
  match freq2k freq with
  | Ok k => k =? exact_k freq
  | Raise _ => false
  end.

(** The two bounds [search_ccf] computes from [k]. *)
Definition band_of_k (k : Z) : result (Z * Z) :=
  (lo <- int_mul_float k 0.97%float ;;
   k_low <- int_of_float lo ;;
   hi <- int_mul_float k 1.03%float ;;
   k_high <- int_of_float hi ;;
   Ok (k_low, k_high))%result.

Definition band_of_k_is_exact (k : Z) : bool :=
  match band_of_k k with
  | Ok (k_low, k_high) => (k_low =? 97 * k / 100) && (k_high =? 103 * k / 100)
  | Raise _ => false
  end.

(** * Properties *)

(** ** Bytes, indexing and slices *)

Lemma byte_to_Z_range (x : byte) : 0 <= byte_to_Z x < 256.
Proof.
  unfold byte_to_Z. pose proof (Byte.to_N_bounded x) as H.
  apply N.lt_succ_r in H. lia.
Qed.

Lemma byte_at_range (b : buffer) (p : Z) : 0 <= byte_at b p < 256.
Proof. apply byte_to_Z_range. Qed.

Lemma u16_at_range (b : buffer) (p : Z) : 0 <= u16_at b p < 65536.
Proof.
  unfold u16_at.
  pose proof (byte_at_range b p). pose proof (byte_at_range b (p + 1)). lia.
Qed.

Lemma len_nonneg (b : buffer) : 0 <= len b.
Proof. unfold len. lia. Qed.

Lemma getitem_in_bounds (b : buffer) (i : Z) :
  0 <= i < len b -> getitem b i = Ok (byte_at b i).
Proof.
  intros H. unfold getitem.
  destruct (Z.ltb_spec i 0); [lia|].
  destruct (Z.ltb_spec i 0); [lia|].
  destruct (Z.leb_spec (len b) i); [lia|]. reflexivity.
Qed.

Lemma getitem_past_end (b : buffer) (i : Z) :
  0 <= i -> len b <= i -> getitem b i = Raise IndexError.
Proof.
  intros H0 H. unfold getitem.
  destruct (Z.ltb_spec i 0); [lia|].
  destruct (Z.ltb_spec i 0); [lia|].
  destruct (Z.leb_spec (len b) i); [reflexivity|lia].
Qed.

Lemma firstn_map_nth {A} (d : A) (l : list A) :
  forall n, (n <= length l)%nat ->
  firstn n l = map (fun k => nth k l d) (seq 0 n).
Proof.
  induction l as [|a l IH]; intros [|n] Hn; simpl in *; try reflexivity; try lia.
  f_equal. rewrite <- seq_shift, map_map. apply IH. lia.
Qed.

Lemma slice_map_nth (b : buffer) (off : Z) (n : nat) :
  0 <= off -> off + Z.of_nat n <= len b ->
  slice b off (off + Z.of_nat n)
  = map (fun k => nth (Z.to_nat off + k) b x00) (seq 0 n).
Proof.
  intros H0 H. unfold slice, len in *.
  replace (Z.to_nat (off + Z.of_nat n - off)) with n by lia.
  rewrite (firstn_map_nth x00) by (rewrite length_skipn; lia).
  apply map_ext. intros k. apply nth_skipn.
Qed.

Lemma nat_index (off : Z) (k : nat) :
  0 <= off -> (Z.to_nat off + k)%nat = Z.to_nat (off + Z.of_nat k).
Proof. lia. Qed.

(** ** Structs *)

Lemma unpack_from_in_bounds (fmt : list fmt_item) (b : buffer) (off : Z) :
  0 <= off -> off + Z.of_nat (calcsize fmt) <= len b ->
  unpack_from fmt b off
  = Ok (decode fmt (slice b off (off + Z.of_nat (calcsize fmt)))).
Proof.
  intros H0 H. unfold unpack_from.
  destruct (Z.ltb_spec off 0); [lia|]. simpl rbind.
  destruct (Z.ltb_spec (len b - off) (Z.of_nat (calcsize fmt))); [lia|].
  reflexivity.
Qed.

Lemma unpack_from_past_end (fmt : list fmt_item) (b : buffer) (off : Z) :
  0 <= off -> len b < off + Z.of_nat (calcsize fmt) ->
  unpack_from fmt b off = Raise StructError.
Proof.
  intros H0 H. unfold unpack_from.
  destruct (Z.ltb_spec off 0); [lia|]. simpl rbind.
  destruct (Z.ltb_spec (len b - off) (Z.of_nat (calcsize fmt))); [|lia].
  reflexivity.
Qed.

Lemma unpack_from_before_start (fmt : list fmt_item) (b : buffer) (off : Z) :
  off < 0 -> 0 < off + Z.of_nat (calcsize fmt) ->
  unpack_from fmt b off = Raise StructError.
Proof.
  intros H0 H. unfold unpack_from.
  destruct (Z.ltb_spec off 0); [|lia].
  destruct (Z.ltb_spec 0 (off + Z.of_nat (calcsize fmt))); [|lia].
  reflexivity.
Qed.

Lemma unpack_from_pair (b : buffer) (p : Z) :
  0 <= p -> p + 4 <= len b ->
  unpack_from pair_fmt b p = Ok [u16_at b p; u16_at b (p + 2)].
Proof.
  intros H0 H. rewrite unpack_from_in_bounds by (simpl; lia).
  rewrite slice_map_nth by (simpl; lia).
  cbn [calcsize pair_fmt fold_right item_size Nat.add seq map decode firstn skipn].
  rewrite !nat_index by lia.
  unfold be_uint, u16_at, byte_at. simpl fold_left.
  repeat (f_equal; try lia).
Qed.

Lemma unpack_from_code (b : buffer) (h : Z) :
  0 <= h -> h + 14 <= len b ->
  unpack_from code_fmt b h
  = Ok [u16_at b h; u32_at b (h + 2); u16_at b (h + 8);
        u16_at b (h + 10); u16_at b (h + 12)].
Proof.
  intros H0 H. rewrite unpack_from_in_bounds by (simpl; lia).
  rewrite slice_map_nth by (simpl; lia).
  cbn [calcsize code_fmt fold_right item_size Nat.add seq map decode firstn skipn].
  rewrite !nat_index by lia.
  unfold be_uint, u16_at, u32_at, byte_at. simpl fold_left.
  repeat (f_equal; try lia).
Qed.

(** ** The pulse sequence decoder *)

Lemma unpack_seq_loop_ok (b : buffer) (i : Z) :
  forall (count : nat) (o : Z) (r : list Z),
  0 <= i + o -> i + o + 4 * Z.of_nat count <= len b ->
  unpack_seq_loop b i count o r = Ok (r ++ pairs_at b (i + o) count).
Proof.
  induction count as [|count IH]; intros o r H0 H; simpl.
  - now rewrite app_nil_r.
  - rewrite unpack_from_pair by lia.
    rewrite IH by lia. rewrite <- !app_assoc. simpl.
    now replace (i + (o + 4)) with (i + o + 4) by lia.
Qed.

Lemma unpack_seq_loop_past_end (b : buffer) (i : Z) :
  forall (count : nat) (o : Z) (r : list Z),
  0 <= i + o -> i + o <= len b -> len b < i + o + 4 * Z.of_nat count ->
  unpack_seq_loop b i count o r = Raise StructError.
Proof.
  induction count as [|count IH]; intros o r H0 H1 H; simpl.
  - lia.
  - destruct (Z_le_gt_dec (i + o + 4) (len b)) as [Hfit|Hfit].
    + rewrite unpack_from_pair by lia. apply IH; lia.
    + rewrite unpack_from_past_end by (simpl; lia). reflexivity.
Qed.

Lemma pairs_at_length (b : buffer) :
  forall (n : nat) (p : Z), length (pairs_at b p n) = (2 * n)%nat.
Proof.
  induction n as [|n IH]; intros p; simpl; [reflexivity|].
  rewrite IH. lia.
Qed.

Lemma pairs_at_nth (b : buffer) :
  forall (n : nat) (p : Z) (j : nat), (j < n)%nat ->
  nth (2 * j) (pairs_at b p n) 0 = u16_at b (p + 4 * Z.of_nat j) /\
  nth (2 * j + 1) (pairs_at b p n) 0 = u16_at b (p + 4 * Z.of_nat j + 2).
Proof.
  induction n as [|n IH]; intros p j Hj; [lia|].
  destruct j as [|j].
  - simpl. now replace (p + 0) with p by lia.
  - replace (2 * S j)%nat with (S (S (2 * j))) by lia.
    cbn [pairs_at nth Nat.add].
    destruct (IH (p + 4) j ltac:(lia)) as [He Ho].
    rewrite He, Ho. split; f_equal; lia.
Qed.

Lemma pairs_at_u16 (b : buffer) :
  forall (n : nat) (p x : Z), In x (pairs_at b p n) -> 0 <= x < 65536.
Proof.
  induction n as [|n IH]; intros p x Hx; simpl in Hx; [tauto|].
  destruct Hx as [<-|[<-|Hx]]; try apply u16_at_range. eapply IH; eauto.
Qed.

Lemma pairs_at_ext (b b' : buffer) :
  forall (n : nat) (p : Z),
  (forall q, p <= q < p + 4 * Z.of_nat n -> byte_at b' q = byte_at b q) ->
  pairs_at b' p n = pairs_at b p n.
Proof.
  induction n as [|n IH]; intros p H; simpl; [reflexivity|].
  unfold u16_at. rewrite !H by lia. rewrite IH; [reflexivity|].
  intros q Hq. apply H. lia.
Qed.

Lemma unpack_seq_ok (b : buffer) (i n : Z) :
  0 <= i -> 0 <= n -> i + 4 * n <= len b ->
  unpack_seq b i n = Ok (pairs_at b i (Z.to_nat n)).
Proof.
  intros Hi Hn H. unfold unpack_seq.
  rewrite unpack_seq_loop_ok by lia. simpl. f_equal. f_equal. lia.
Qed.

(** C5: when the bytes [i, i+4n) lie within the buffer, the decoder
    returns exactly 2n unsigned 16-bit values, the on time of pair j (the
    big-endian u16 at i+4j) at position 2j and its off time (the
    big-endian u16 at i+4j+2) at position 2j+1; the result depends on
    those 4n bytes only. *)
Theorem unpack_seq_pairs (b : buffer) (i n : Z) :
  0 <= i -> 0 <= n -> i + 4 * n <= len b ->
  exists r,
    unpack_seq b i n = Ok r /\
    Z.of_nat (length r) = 2 * n /\
    (forall j, 0 <= j < n ->
       nth (Z.to_nat (2 * j)) r 0 = u16_at b (i + 4 * j) /\
       nth (Z.to_nat (2 * j + 1)) r 0 = u16_at b (i + 4 * j + 2)) /\
    (forall x, In x r -> 0 <= x < 65536) /\
    (forall b' : buffer,
       i + 4 * n <= len b' ->
       (forall p, i <= p < i + 4 * n -> byte_at b' p = byte_at b p) ->
       unpack_seq b' i n = Ok r).
Proof.
  intros Hi Hn H. exists (pairs_at b i (Z.to_nat n)).
  split; [now apply unpack_seq_ok|].
  split; [rewrite pairs_at_length; lia|].
  split.
  - intros j Hj.
    destruct (pairs_at_nth b (Z.to_nat n) i (Z.to_nat j) ltac:(lia)) as [He Ho].
    replace (Z.to_nat (2 * j)) with (2 * Z.to_nat j)%nat by lia.
    replace (Z.to_nat (2 * j + 1)) with (2 * Z.to_nat j + 1)%nat by lia.
    rewrite He, Ho. rewrite Z2Nat.id by lia. split; reflexivity.
  - split; [apply pairs_at_u16|].
    intros b' Hlen Hsame. rewrite unpack_seq_ok by lia.
    f_equal. apply pairs_at_ext. intros q Hq. apply Hsame. lia.
Qed.

Lemma unpack_seq_pairs_witness :
  exists r,
    unpack_seq (ccf_power 103 96) 50 2 = Ok r /\
    Z.of_nat (length r) = 2 * 2 /\
    (forall j, 0 <= j < 2 ->
       nth (Z.to_nat (2 * j)) r 0 = u16_at (ccf_power 103 96) (50 + 4 * j) /\
       nth (Z.to_nat (2 * j + 1)) r 0 = u16_at (ccf_power 103 96) (50 + 4 * j + 2)) /\
    (forall x, In x r -> 0 <= x < 65536) /\
    (forall b' : buffer,
       50 + 4 * 2 <= len b' ->
       (forall p, 50 <= p < 50 + 4 * 2 ->
          byte_at b' p = byte_at (ccf_power 103 96) p) ->
       unpack_seq b' 50 2 = Ok r).
Proof.
  apply (unpack_seq_pairs (ccf_power 103 96) 50 2); try lia.
  vm_compute. discriminate.
Defined.

(** ** Searching for the marker *)

Lemma starts_with_length (sub : list byte) :
  forall l, starts_with sub l = true -> (length sub <= length l)%nat.
Proof.
  induction sub as [|s sub IH]; intros [|x l] H; simpl in *; try lia; try discriminate.
  apply andb_true_iff in H as [_ H]. apply IH in H. lia.
Qed.

Lemma find_from_found (sub : list byte) :
  forall (l : list byte) (pos : Z),
  0 <= pos -> find_from sub l pos <> -1 ->
  pos <= find_from sub l pos /\
  find_from sub l pos + Z.of_nat (length sub) <= pos + Z.of_nat (length l) /\
  starts_with sub (skipn (Z.to_nat (find_from sub l pos - pos)) l) = true.
Proof.
  induction l as [|x l IH]; intros pos Hpos Hfound.
  - simpl in Hfound. congruence.
  - cbn [find_from] in *.
    destruct (starts_with sub (x :: l)) eqn:Hs.
    + apply starts_with_length in Hs as Hl.
      rewrite Z.sub_diag. simpl skipn. rewrite Hs. repeat split; lia.
    + destruct (IH (pos + 1) ltac:(lia) Hfound) as (H1 & H2 & H3).
      repeat split; [lia | simpl length; lia |].
      replace (Z.to_nat (find_from sub l (pos + 1) - pos))
        with (S (Z.to_nat (find_from sub l (pos + 1) - (pos + 1)))) by lia.
      exact H3.
Qed.

Lemma find_found (b : buffer) (off : Z) :
  0 <= off -> find b pat off <> -1 ->
  off <= find b pat off /\ find b pat off + 3 <= len b.
Proof.
  intros Hoff Hfound. unfold find in *.
  destruct (find_from_found pat _ off Hoff Hfound) as (H1 & H2 & _).
  split; [exact H1|].
  rewrite length_skipn in H2. simpl length in H2. unfold len. lia.
Qed.

Lemma find_marker (b : buffer) (off : Z) :
  0 <= off -> find b pat off <> -1 ->
  byte_at b (find b pat off) = 0 /\
  byte_at b (find b pat off + 1) = 0 /\
  byte_at b (find b pat off + 2) = 0.
Proof.
  intros Hoff Hfound. unfold find in *.
  destruct (find_from_found pat _ off Hoff Hfound) as (H1 & _ & H3).
  set (i := find_from pat (skipn (Z.to_nat off) b) off) in *.
  rewrite skipn_skipn in H3.
  replace (Z.to_nat (i - off) + Z.to_nat off)%nat with (Z.to_nat i) in H3 by lia.
  unfold byte_at.
  replace (Z.to_nat (i + 1)) with (Z.to_nat i + 1)%nat by lia.
  replace (Z.to_nat (i + 2)) with (Z.to_nat i + 2)%nat by lia.
  replace (Z.to_nat i) with (Z.to_nat i + 0)%nat at 1 by lia.
  rewrite <- !nth_skipn.
  destruct (skipn (Z.to_nat i) b) as [|a0 [|a1 [|a2 l]]]; simpl in H3;
    repeat (apply andb_true_iff in H3 as [? H3]); try discriminate.
  repeat match goal with
         | E : Byte.eqb _ _ = true |- _ => apply Byte.byte_dec_bl in E; subst
         end.
  simpl. tauto.
Qed.

(** ** One pass of the loop *)

Section Loop.

Variables (b : buffer) (k_low k_high : Z) (args : Args).

Lemma iteration_inv (off : Z) (t : trace) (r : result step) :
  0 <= off -> iteration b k_low k_high args off = (t, r) ->
  (find b pat off = -1 /\ t = [] /\ r = Ok Break) \/
  (off <= find b pat off /\ find b pat off + 3 <= len b /\
   (t = [] \/ exists out, t = [mkReport (find b pat off) out]) /\
   (r = Ok (Continue (find b pat off + 3)) \/ exists e, r = Raise e)).
Proof.
  intros Hoff H. unfold iteration in H.
  destruct (Z.eqb_spec (find b pat off) (-1)) as [E|E].
  - left. inversion H. auto.
  - right. destruct (find_found b off Hoff E) as [H1 H2].
    split; [exact H1|]. split; [exact H2|].
    change (len pat) with 3 in H.
    destruct (heuristic b (find b pat off) k_low k_high) as [[|]|e].
    + destruct (dump_button b (find b pat off) args) as [out [u|e]];
        inversion H; subst; split; eauto.
    + inversion H; subst; split; eauto.
    + inversion H; subst; split; eauto.
Qed.

Lemma iteration_progress (off off' : Z) (t : trace) :
  0 <= off -> iteration b k_low k_high args off = (t, Ok (Continue off')) ->
  off + 3 <= off' <= len b.
Proof.
  intros Hoff H.
  destruct (iteration_inv _ _ _ Hoff H) as [(_ & _ & E)|(H1 & H2 & _ & [E|[e E]])];
    inversion E; lia.
Qed.

(** ** The loop *)

Lemma scan_enough_fuel :
  forall (fuel : nat) (off : Z),
  0 <= off <= len b -> len b - off < 3 * Z.of_nat fuel ->
  exists t r, scan fuel b k_low k_high args off = Some (t, r).
Proof.
  induction fuel as [|fuel IH]; intros off Hoff Hfuel; [lia|].
  cbn [scan].
  destruct (iteration b k_low k_high args off) as [t [[|off']|e]] eqn:Hit; eauto.
  pose proof (iteration_progress _ _ _ (proj1 Hoff) Hit) as Hp.
  destruct (IH off' ltac:(lia) ltac:(lia)) as (t' & r & E).
  rewrite E. eauto.
Qed.

Lemma scan_markers :
  forall (fuel : nat) (off : Z) (t : trace) (r : result unit),
  0 <= off -> scan fuel b k_low k_high args off = Some (t, r) ->
  Forall (fun m => off <= m) (map marker t) /\
  StronglySorted Z.lt (map marker t).
Proof.
  induction fuel as [|fuel IH]; intros off t r Hoff H; [discriminate|].
  cbn [scan] in H.
  destruct (iteration b k_low k_high args off) as [t0 r0] eqn:Hit.
  destruct (iteration_inv _ _ _ Hoff Hit)
    as [(_ & -> & ->)|(H1 & H2 & Ht0 & Hr0)].
  - inversion H; subst. split; constructor.
  - assert (Hhead : Forall (fun m => off <= m) (map marker t0) /\
                    StronglySorted Z.lt (map marker t0)).
    { destruct Ht0 as [->|[out ->]]; simpl.
      - repeat split; constructor.
      - repeat split; repeat constructor; lia. }
    destruct Hhead as (Hge & Hsorted).
    destruct Hr0 as [->|[e ->]].
    + destruct (scan fuel b k_low k_high args (find b pat off + 3))
        as [[t' r']|] eqn:Hrest; [|discriminate].
      destruct (IH (find b pat off + 3) t' r' ltac:(lia) Hrest) as [Hge' Hsorted'].
      inversion H; subst.
      rewrite map_app. split.
      * apply Forall_app. split; [exact Hge|].
        eapply Forall_impl; [|exact Hge']. simpl. intros; lia.
      * destruct Ht0 as [->|[out ->]]; simpl; [exact Hsorted'|].
        constructor; [exact Hsorted'|].
        eapply Forall_impl; [|exact Hge']. simpl. intros; lia.
    + inversion H; subst. split; assumption.
Qed.

End Loop.

Lemma sorted_reported (t : trace) :
  StronglySorted Z.lt (map marker t) ->
  StronglySorted Z.lt (reported_offsets t).
Proof.
  unfold reported_offsets.
  induction t as [|rp t IH]; intros H; simpl; [constructor|].
  simpl in H. apply StronglySorted_inv in H as [Ht Hall].
  destruct (printed rp); simpl; [auto|].
  constructor; [auto|].
  rewrite Forall_forall in *. intros m Hm.
  apply Hall. apply in_map_iff in Hm as (rp' & <- & Hin).
  apply filter_In in Hin as [Hin _]. now apply in_map.
Qed.

Lemma search_ccf_scan (args : Args) (b : buffer) (k_low k_high : Z) :
  band (args_carrier args) = Ok (k_low, k_high) -> magic_ok b = true ->
  search_ccf args b = scan (S (length b)) b k_low k_high args 0.
Proof.
  intros Hband Hmagic. unfold search_ccf. rewrite Hband.
  destruct b as [|x b']; [discriminate Hmagic|]. now rewrite Hmagic.
Qed.

Lemma search_ccf_inv (args : Args) (b : buffer) (t : trace) (r : result unit) :
  search_ccf args b = Some (t, r) ->
  (t = [] /\ exists e, r = Raise e) \/
  (exists k_low k_high,
     band (args_carrier args) = Ok (k_low, k_high) /\ magic_ok b = true /\
     scan (S (length b)) b k_low k_high args 0 = Some (t, r)).
Proof.
  unfold search_ccf. intros H.
  destruct (band (args_carrier args)) as [[k_low k_high]|e].
  - destruct b as [|x b']; [left; inversion H; eauto|].
    destruct (magic_ok (x :: b')) eqn:Hmagic; cbn [negb] in H.
    + right. eauto.
    + left. inversion H; eauto.
  - left. inversion H; eauto.
Qed.

(** Whatever the file and the options, the model of a run returns. *)
Lemma search_ccf_returns (args : Args) (b : buffer) :
  exists t r, search_ccf args b = Some (t, r).
Proof.
  unfold search_ccf.
  destruct (band (args_carrier args)) as [[k_low k_high]|e]; [|eauto].
  destruct b as [|x b']; [eauto|].
  destruct (magic_ok (x :: b')); cbn [negb]; [|eauto].
  apply scan_enough_fuel; unfold len; lia.
Qed.

(** C10: on a buffer that passes the magic check the scan loop
    terminates.  A pass of the loop that neither breaks nor raises moves
    the search offset forward by at least the three bytes of the marker
    and never beyond the end of the buffer; so any number of passes above
    a third of the buffer length lets the loop finish, and [search_ccf],
    which allows [length b + 1] passes, returns. *)
Theorem scan_loop_terminates (args : Args) (b : buffer) (k_low k_high : Z) :
  magic_ok b = true ->
  band (args_carrier args) = Ok (k_low, k_high) ->
  (forall off off' t,
     0 <= off ->
     iteration b k_low k_high args off = (t, Ok (Continue off')) ->
     off + 3 <= off' <= len b) /\
  (forall fuel,
     (length b < 3 * fuel)%nat ->
     exists t r, scan fuel b k_low k_high args 0 = Some (t, r)) /\
  (exists t r,
     search_ccf args b = Some (t, r) /\
     scan (S (length b)) b k_low k_high args 0 = Some (t, r)).
Proof.
  intros Hmagic Hband. split; [|split].
  - intros off off' t Hoff Hit. eapply iteration_progress; eauto.
  - intros fuel Hfuel. apply scan_enough_fuel; unfold len; lia.
  - destruct (scan_enough_fuel b k_low k_high args (S (length b)) 0)
      as (t & r & E); [unfold len; lia | unfold len; lia |].
    exists t, r. split; [|exact E].
    now rewrite (search_ccf_scan _ _ _ _ Hband Hmagic).
Qed.

Lemma scan_loop_terminates_witness :
  exists t r,
    search_ccf default_args (ccf_two 22 80 86) = Some (t, r) /\
    scan 91 (ccf_two 22 80 86) 99 106 default_args 0 = Some (t, r).
Proof.
  apply (scan_loop_terminates default_args (ccf_two 22 80 86) 99 106);
    vm_compute; reflexivity.
Defined.

(** C8: when the scan completes, the marker offsets of the reported
    blocks are strictly ascending in the order of the report; in fact all
    calls of the validator happen at strictly ascending offsets. *)
Theorem reported_in_ascending_order (args : Args) (b : buffer) (t : trace) :
  search_ccf args b = Some (t, Ok tt) ->
  StronglySorted Z.lt (reported_offsets t) /\
  StronglySorted Z.lt (map marker t).
Proof.
  intros H.
  assert (Hsorted : StronglySorted Z.lt (map marker t)).
  { destruct (search_ccf_inv _ _ _ _ H) as [[-> _]|(k_low & k_high & _ & _ & Hscan)].
    - constructor.
    - now destruct (scan_markers _ _ _ _ _ _ _ _ (Z.le_refl 0) Hscan). }
  split; [now apply sorted_reported | exact Hsorted].
Qed.

Lemma reported_in_ascending_order_witness :
  search_ccf default_args (ccf_two 22 80 86) = Some (two_buttons_trace, Ok tt) /\
  StronglySorted Z.lt (reported_offsets two_buttons_trace) /\
  StronglySorted Z.lt (map marker two_buttons_trace).
Proof.
  assert (H : search_ccf default_args (ccf_two 22 80 86)
              = Some (two_buttons_trace, Ok tt)) by (vm_compute; reflexivity).
  split; [exact H|].
  exact (reported_in_ascending_order default_args (ccf_two 22 80 86)
           two_buttons_trace H).
Defined.

(** ** The two monads *)

Lemma rbind_ok_inv {A B} (c : result A) (k : A -> result B) (v : B) :
  rbind c k = Ok v -> exists a, c = Ok a /\ k a = Ok v.
Proof. destruct c; simpl; intros H; [eauto|discriminate]. Qed.

Lemma bind_ok_inv {A B} (c : io A) (k : A -> io B) (out : list line) (v : B) :
  bind c k = (out, Ok v) ->
  exists out1 a out2, c = (out1, Ok a) /\ k a = (out2, Ok v) /\ out = out1 ++ out2.
Proof.
  destruct c as [out1 [a|e]]; simpl; [|discriminate].
  destruct (k a) as [out2 r] eqn:E. intros H. inversion H; subst.
  exists out1, a, out2. auto.
Qed.

Lemma bind_raise_l {A B} (k : A -> io B) (out : list line) (e : exn) :
  bind (out, Raise e) k = (out, Raise e).
Proof. reflexivity. Qed.

Lemma bind_lift_ok {A B} (k : A -> io B) (a : A) : bind (lift (Ok a)) k = k a.
Proof. unfold bind, lift. now destruct (k a). Qed.

Lemma bind_print {B} (l : line) (k : unit -> io B) :
  bind (print l) k = (l :: fst (k tt), snd (k tt)).
Proof. unfold bind, print. now destruct (k tt). Qed.

Lemma lift_ok_inv {A} (r : result A) (out : list line) (a : A) :
  lift r = (out, Ok a) -> r = Ok a /\ out = [].
Proof. unfold lift. intros H. inversion H. auto. Qed.

(** ** No part of the scan raises the magic error *)

Lemma benign_rbind {A B} (c : result A) (k : A -> result B) :
  benign c -> (forall a, benign (k a)) -> benign (rbind c k).
Proof. destruct c as [a|e]; simpl; auto. Qed.

Lemma benign_bind {A B} (c : io A) (k : A -> io B) :
  benign (snd c) -> (forall a, benign (snd (k a))) -> benign (snd (bind c k)).
Proof.
  destruct c as [out [a|e]]; simpl; auto.
  intros _ H. specialize (H a). now destruct (k a).
Qed.

Lemma benign_getitem (b : buffer) (i : Z) : benign (getitem b i).
Proof. unfold getitem. now destruct (_ || _). Qed.

Lemma benign_unpack_from (fmt : list fmt_item) (b : buffer) (off : Z) :
  benign (unpack_from fmt b off).
Proof.
  unfold unpack_from.
  repeat match goal with
         | |- context [if ?c then _ else _] => destruct c; simpl
         end; exact I.
Qed.

Lemma benign_float_of_int (z : Z) : benign (float_of_int z).
Proof. unfold float_of_int. now destruct (is_infinity _). Qed.

Lemma benign_int_of_float (f : float) : benign (int_of_float f).
Proof. unfold int_of_float. now destruct (Prim2SF f). Qed.

Lemma benign_float_div (x y : float) : benign (float_div x y).
Proof. unfold float_div. now destruct (PrimFloat.eqb _ _). Qed.

Lemma benign_int_mul_float (n : Z) (c : float) : benign (int_mul_float n c).
Proof.
  unfold int_mul_float. apply benign_rbind; [apply benign_float_of_int|].
  intros; exact I.
Qed.

Lemma benign_int_truediv (a b : Z) : benign (int_truediv a b).
Proof.
  unfold int_truediv. destruct (b =? 0); [exact I|].
  destruct ((Z.abs a <? 2 ^ 53) && (Z.abs b <? 2 ^ 53)).
  - repeat (apply benign_rbind; [apply benign_float_of_int|intros]). exact I.
  - destruct (is_infinity _); exact I.
Qed.

Create HintDb benign.

#[local] Hint Resolve benign_getitem benign_unpack_from benign_float_of_int
  benign_int_of_float benign_float_div benign_int_mul_float benign_int_truediv
  : benign.

Ltac benign_steps :=
  repeat first
    [ apply benign_rbind; [auto with benign|intros]
    | apply benign_bind; [simpl; auto with benign|intros] ].

Lemma benign_freq2k (freq : Z) : benign (freq2k freq).
Proof. unfold freq2k. benign_steps. auto with benign. Qed.

Lemma benign_to_khz (k : Z) : benign (to_khz k).
Proof. unfold to_khz. benign_steps. auto with benign. Qed.

Lemma benign_to_usec (x k : Z) : benign (to_usec x k).
Proof. unfold to_usec. benign_steps. auto with benign. Qed.

Lemma benign_rescale (x old_k k : Z) : benign (rescale x old_k k).
Proof. unfold rescale. benign_steps. auto with benign. Qed.

Lemma benign_map_result {A B} (f : A -> result B) (xs : list A) :
  (forall x, benign (f x)) -> benign (map_result f xs).
Proof.
  intros Hf. induction xs as [|x xs IH]; simpl; [exact I|].
  specialize (Hf x). destruct (f x); [|exact Hf].
  destruct (map_result f xs); [exact I|exact IH].
Qed.

Lemma benign_unpack_seq (b : buffer) (i n : Z) : benign (unpack_seq b i n).
Proof.
  unfold unpack_seq. generalize 0 at 1. generalize (@nil Z).
  induction (Z.to_nat n) as [|count IH]; intros r o; simpl; [exact I|].
  pose proof (benign_unpack_from pair_fmt b (i + o)) as H.
  destruct (unpack_from pair_fmt b (i + o)) as [[|on [|off [|x l]]]|e];
    try exact I; [apply IH | exact H].
Qed.

#[local] Hint Resolve benign_freq2k benign_to_khz benign_to_usec benign_rescale
  benign_unpack_seq : benign.

Lemma benign_dump_pairs (xs : list Z) (name : string) (base : Z) (args : Args) :
  benign (snd (dump_pairs xs name base args)).
Proof.
  unfold dump_pairs. apply benign_bind.
  - destruct (args_lirc args).
    + apply benign_bind; [exact I|intros]. simpl.
      apply benign_map_result. auto with benign.
    + apply benign_bind; [exact I|intros].
      destruct (args_rescale args) as [hz|]; [|exact I].
      destruct (hz =? 0); [exact I|].
      apply benign_bind; [simpl; auto with benign|intros]. simpl.
      apply benign_map_result. auto with benign.
  - intros [|y ys]; exact I.
Qed.

Lemma benign_dump_block (b : buffer) (i j base once_k repeat_k : Z) (args : Args) :
  benign (snd (dump_block b i j base once_k repeat_k args)).
Proof.
  unfold dump_block.
  apply benign_bind; [simpl; auto with benign|intros l].
  apply benign_bind; [exact I|intros _].
  apply benign_bind.
  { destruct (args_rescale args) as [hz|]; [|exact I].
    destruct (hz =? 0); [exact I|]. simpl. auto with benign. }
  intros baseP.
  apply benign_bind; [simpl; auto with benign|intros khz].
  apply benign_bind; [exact I|intros _].
  apply benign_bind; [exact I|intros _].
  apply benign_bind; [simpl; auto with benign|intros xs].
  apply benign_bind; [apply benign_dump_pairs|intros _].
  apply benign_bind; [simpl; auto with benign|intros xs'].
  apply benign_dump_pairs.
Qed.

Lemma benign_dump_button (b : buffer) (i : Z) (args : Args) :
  benign (snd (dump_button b i args)).
Proof.
  unfold dump_button.
  apply benign_bind; [simpl; auto with benign|intros hdr].
  destruct hdr as [|n [|j [|base [|once_k [|repeat_k [|x l]]]]]]; try exact I.
  destruct (_ =? _); [apply benign_dump_block|exact I].
Qed.

Lemma benign_py_and (l r : result bool) :
  benign l -> benign r -> benign (py_and l r).
Proof. destruct l as [[|]|e]; simpl; auto. Qed.

Lemma benign_heuristic (b : buffer) (i k_low k_high : Z) :
  benign (heuristic b i k_low k_high).
Proof.
  unfold heuristic.
  repeat apply benign_py_and;
    (apply benign_rbind; [apply benign_getitem|intros; exact I]).
Qed.

Lemma benign_iteration (b : buffer) (k_low k_high : Z) (args : Args) (off : Z) :
  benign (snd (iteration b k_low k_high args off)).
Proof.
  unfold iteration. destruct (_ =? -1); [exact I|].
  pose proof (benign_heuristic b (find b pat off) k_low k_high) as Hh.
  destruct (heuristic b (find b pat off) k_low k_high) as [[|]|e];
    [|exact I|exact Hh].
  pose proof (benign_dump_button b (find b pat off) args) as Hd.
  destruct (dump_button b (find b pat off) args) as [out [u|e]]; [exact I|exact Hd].
Qed.

Lemma benign_scan (b : buffer) (k_low k_high : Z) (args : Args) :
  forall (fuel : nat) (off : Z) (t : trace) (r : result unit),
  scan fuel b k_low k_high args off = Some (t, r) -> benign r.
Proof.
  induction fuel as [|fuel IH]; intros off t r H; [discriminate|].
  cbn [scan] in H.
  pose proof (benign_iteration b k_low k_high args off) as Hit.
  destruct (iteration b k_low k_high args off) as [t0 [[|off']|e]]; simpl in Hit.
  - inversion H. exact I.
  - destruct (scan fuel b k_low k_high args off') as [[t' r']|] eqn:E; [|discriminate].
    inversion H; subst. eapply IH; eauto.
  - inversion H; subst. exact Hit.
Qed.

(** ** The magic check *)

Lemma bytes_eqb_eq (x y : list byte) : bytes_eqb x y = true <-> x = y.
Proof.
  revert y. induction x as [|a x IH]; intros [|c y]; simpl; split; intros H;
    try reflexivity; try discriminate.
  - apply andb_true_iff in H as [Hh Ht].
    apply Byte.byte_dec_bl in Hh. apply IH in Ht. congruence.
  - inversion H; subst. apply andb_true_iff. split.
    + now apply Byte.byte_dec_lb.
    + now apply IH.
Qed.

Lemma magic_ok_iff (b : buffer) :
  magic_ok b = true <-> slice b 8 16 = magic1 /\ slice b 32 36 = magic2.
Proof.
  unfold magic_ok. rewrite andb_true_iff, !bytes_eqb_eq. reflexivity.
Qed.

(** C4: on a file that is not empty, if the 8 bytes at offset 8 or the
    4 bytes at offset 32 are not the magic constants, the run ends with
    the magic error before the loop is entered and nothing is reported;
    if both match, the result of the run is the result of the scan loop,
    which never is the magic error.  An empty file does not reach the
    test: mapping it fails with ValueError.  (The carrier option is
    assumed to yield a band: it is converted before the file is looked
    at.) *)
Theorem magic_check (args : Args) (b : buffer) (k_low k_high : Z) :
  band (args_carrier args) = Ok (k_low, k_high) ->
  (b = [] -> search_ccf args b = Some ([], Raise ValueError)) /\
  (b <> [] -> slice b 8 16 <> magic1 \/ slice b 32 36 <> magic2 ->
   search_ccf args b = Some ([], Raise RuntimeError)) /\
  (slice b 8 16 = magic1 /\ slice b 32 36 = magic2 ->
   search_ccf args b = scan (S (length b)) b k_low k_high args 0 /\
   forall t, search_ccf args b <> Some (t, Raise RuntimeError)).
Proof.
  intros Hband. split; [|split].
  - intros ->. unfold search_ccf. now rewrite Hband.
  - intros Hne Hbad. unfold search_ccf. rewrite Hband.
    destruct b as [|x b']; [congruence|].
    destruct (magic_ok (x :: b')) eqn:E; [|reflexivity].
    apply magic_ok_iff in E. tauto.
  - intros Hgood. apply magic_ok_iff in Hgood.
    rewrite (search_ccf_scan _ _ _ _ Hband Hgood). split; [reflexivity|].
    intros t H. apply benign_scan in H. exact H.
Qed.

Lemma magic_check_witness :
  search_ccf default_args [] = Some ([], Raise ValueError) /\
  search_ccf default_args (tl (ccf_power 103 96)) = Some ([], Raise RuntimeError) /\
  search_ccf default_args (ccf_power 103 96)
  = scan 65 (ccf_power 103 96) 99 106 default_args 0.
Proof.
  split; [|split].
  - apply (magic_check default_args [] 99 106);
      [vm_compute; reflexivity|reflexivity].
  - apply (magic_check default_args (tl (ccf_power 103 96)) 99 106);
      [vm_compute; reflexivity|vm_compute; discriminate|].
    left. vm_compute. discriminate.
  - apply (magic_check default_args (ccf_power 103 96) 99 106);
      [vm_compute; reflexivity|].
    split; vm_compute; reflexivity.
Defined.

(** ** The validator *)

Lemma dump_button_header (b : buffer) (i : Z) (args : Args) :
  6 <= i -> i + 8 <= len b ->
  dump_button b i args
  = if u16_at b (i - 6) =? 6 + 8 + (u16_at b (i + 4) + u16_at b (i + 6)) * (2 + 2)
    then dump_block b i (u32_at b (i - 4)) (u16_at b (i + 2))
                    (u16_at b (i + 4)) (u16_at b (i + 6)) args
    else ret tt.
Proof.
  intros H6 H8. unfold dump_button.
  rewrite unpack_from_code by lia. rewrite bind_lift_ok.
  replace (i - 6 + 2) with (i - 4) by lia.
  replace (i - 6 + 8) with (i + 2) by lia.
  replace (i - 6 + 10) with (i + 4) by lia.
  replace (i - 6 + 12) with (i + 6) by lia.
  reflexivity.
Qed.

Lemma dump_button_before_start (b : buffer) (i : Z) (args : Args) :
  0 <= i < 6 -> dump_button b i args = ([], Raise StructError).
Proof.
  intros H. unfold dump_button.
  rewrite unpack_from_before_start by (simpl; lia). reflexivity.
Qed.

Lemma dump_button_header_past_end (b : buffer) (i : Z) (args : Args) :
  6 <= i -> len b < i + 8 -> dump_button b i args = ([], Raise StructError).
Proof.
  intros H6 H8. unfold dump_button.
  rewrite unpack_from_past_end by (simpl; lia). reflexivity.
Qed.

Lemma dump_block_name_past_end (b : buffer) (i j base once_k repeat_k : Z) (args : Args) :
  0 <= j -> len b <= j ->
  dump_block b i j base once_k repeat_k args = ([], Raise IndexError).
Proof.
  intros H0 H. unfold dump_block. rewrite getitem_past_end by lia. reflexivity.
Qed.

Lemma dump_block_button (b : buffer) (i j base once_k repeat_k : Z) (args : Args) :
  0 <= j < len b ->
  exists rest r,
    dump_block b i j base once_k repeat_k args
    = (Button (slice b (j + 1) (j + 1 + byte_at b j)) :: rest, r).
Proof.
  intros H. unfold dump_block. rewrite getitem_in_bounds by lia.
  rewrite bind_lift_ok, bind_print. eauto.
Qed.

Lemma unpack_seq_ok_inv (b : buffer) (i n : Z) (r : list Z) :
  0 <= i <= len b -> unpack_seq b i n = Ok r ->
  r = pairs_at b i (Z.to_nat n) /\ i + 4 * Z.of_nat (Z.to_nat n) <= len b.
Proof.
  intros Hi H. unfold unpack_seq in H.
  destruct (Z_le_gt_dec (i + 4 * Z.of_nat (Z.to_nat n)) (len b)) as [Hfit|Hfit].
  - rewrite unpack_seq_loop_ok in H by lia. simpl in H. inversion H.
    split; [f_equal; lia | lia].
  - rewrite unpack_seq_loop_past_end in H by lia. discriminate.
Qed.

Lemma print_bind_ok_inv {B} (l : line) (k : unit -> io B) (out : list line) (v : B) :
  bind (print l) k = (out, Ok v) ->
  exists out', k tt = (out', Ok v) /\ out = l :: out'.
Proof.
  intros H. apply bind_ok_inv in H as (o1 & [] & o2 & Hp & Hk & ->).
  unfold print in Hp. inversion Hp; subst. eauto.
Qed.

Lemma dump_block_ok_inv (b : buffer) (i j base once_k repeat_k : Z) (args : Args)
      (out : list line) :
  0 <= i -> i + 8 <= len b -> 0 <= once_k -> 0 <= repeat_k ->
  dump_block b i j base once_k repeat_k args = (out, Ok tt) ->
  exists l baseP khz out1 out2,
    getitem b j = Ok l /\
    dump_pairs (pairs_at b (i + 8) (Z.to_nat once_k)) "once" base args
      = (out1, Ok tt) /\
    dump_pairs (pairs_at b (i + 8 + once_k * 4) (Z.to_nat repeat_k)) "repeat" base args
      = (out2, Ok tt) /\
    out = Button (slice b (j + 1) (j + 1 + l)) :: Carrier khz baseP
          :: Header baseP once_k repeat_k :: out1 ++ out2 /\
    i + 8 + 4 * (once_k + repeat_k) <= len b.
Proof.
  intros Hi H8 Ho Hr H. unfold dump_block in H.
  apply bind_ok_inv in H as (o1 & l & o1' & Hl & H & ->).
  apply lift_ok_inv in Hl as [Hl ->].
  apply print_bind_ok_inv in H as (o2 & H & ->).
  apply bind_ok_inv in H as (o3 & baseP & o3' & HbaseP & H & ->).
  assert (o3 = []) as ->.
  { destruct (args_rescale args) as [hz|]; [destruct (hz =? 0)|];
      inversion HbaseP; reflexivity. }
  clear HbaseP.
  apply bind_ok_inv in H as (o4 & khz & o4' & Hkhz & H & ->).
  apply lift_ok_inv in Hkhz as [Hkhz ->].
  apply print_bind_ok_inv in H as (o5 & H & ->).
  apply print_bind_ok_inv in H as (o6 & H & ->).
  apply bind_ok_inv in H as (o7 & xs & o7' & Hxs & H & ->).
  apply lift_ok_inv in Hxs as [Hxs ->].
  apply unpack_seq_ok_inv in Hxs as [-> Hfit1]; [|lia].
  apply bind_ok_inv in H as (out1 & [] & o8 & Hd1 & H & ->).
  apply bind_ok_inv in H as (o9 & xs' & out2 & Hxs' & Hd2 & ->).
  apply lift_ok_inv in Hxs' as [Hxs' ->].
  apply unpack_seq_ok_inv in Hxs' as [-> Hfit2]; [|lia].
  exists l, baseP, khz, out1, out2.
  repeat split; try assumption; lia.
Qed.

Lemma dump_block_pulses_past_end (b : buffer) (i j base once_k repeat_k : Z) (args : Args) :
  0 <= i -> i + 8 <= len b -> 0 <= once_k -> 0 <= repeat_k ->
  len b < i + 8 + 4 * (once_k + repeat_k) ->
  exists out e, dump_block b i j base once_k repeat_k args = (out, Raise e).
Proof.
  intros Hi H8 Ho Hr Hpast.
  destruct (dump_block b i j base once_k repeat_k args) as [out [[]|e]] eqn:E; [|eauto].
  apply dump_block_ok_inv in E as (? & ? & ? & ? & ? & _ & _ & _ & _ & Hfit); lia.
Qed.

Lemma scan_step_report (b : buffer) (k_low k_high : Z) (args : Args)
      (fuel : nat) (off : Z) (out : list line) :
  find b pat off <> -1 ->
  heuristic b (find b pat off) k_low k_high = Ok true ->
  dump_button b (find b pat off) args = (out, Ok tt) ->
  scan (S fuel) b k_low k_high args off
  = match scan fuel b k_low k_high args (find b pat off + 3) with
    | Some (t, r) => Some (mkReport (find b pat off) out :: t, r)
    | None => None
    end.
Proof.
  intros Hfound Hh Hd. cbn [scan]. unfold iteration.
  destruct (Z.eqb_spec (find b pat off) (-1)); [contradiction|].
  rewrite Hh, Hd. reflexivity.
Qed.

Lemma scan_step_raise (b : buffer) (k_low k_high : Z) (args : Args)
      (fuel : nat) (off : Z) (out : list line) (e : exn) :
  find b pat off <> -1 ->
  heuristic b (find b pat off) k_low k_high = Ok true ->
  dump_button b (find b pat off) args = (out, Raise e) ->
  scan (S fuel) b k_low k_high args off
  = Some ([mkReport (find b pat off) out], Raise e).
Proof.
  intros Hfound Hh Hd. cbn [scan]. unfold iteration.
  destruct (Z.eqb_spec (find b pat off) (-1)); [contradiction|].
  rewrite Hh, Hd. reflexivity.
Qed.

Lemma map_result_ext {A B} (f g : A -> result B) (xs : list A) :
  (forall x, f x = g x) -> map_result f xs = map_result g xs.
Proof.
  intros H. induction xs as [|x xs IH]; simpl; [reflexivity|].
  now rewrite H, IH.
Qed.

Lemma map_result_id (xs : list Z) : map_result (fun x => Ok x) xs = Ok xs.
Proof. induction xs as [|x xs IH]; simpl; [reflexivity|now rewrite IH]. Qed.

Lemma pairs_at_count (b : buffer) (p n : Z) :
  0 <= n -> Z.of_nat (length (pairs_at b p (Z.to_nat n))) / 2 = n.
Proof.
  intros Hn. rewrite pairs_at_length.
  replace (Z.of_nat (2 * Z.to_nat n)) with (n * 2) by lia.
  apply Z.div_mul. lia.
Qed.

Lemma bind_ok_pair {A B} (out : list line) (a : A) (k : A -> io B) :
  bind (out, Ok a) k = (out ++ fst (k a), snd (k a)).
Proof. unfold bind. now destruct (k a). Qed.

Lemma dump_pairs_output (xs : list Z) (name : string) (base : Z) (args : Args)
      (baseP : Z) (ys : list Z) :
  carrier_shown args base = Ok baseP ->
  map_result (width_conversion args base) xs = Ok ys ->
  dump_pairs xs name base args
  = (PairsTitle name (Z.of_nat (length xs) / 2) (args_lirc args)
       :: seq_line args ys, Ok tt).
Proof.
  unfold dump_pairs, width_conversion, carrier_shown, seq_line.
  destruct (args_lirc args).
  - intros _ Hys. rewrite bind_print.
    change (map_result (fun x => to_usec x base) xs = Ok ys) in Hys.
    rewrite Hys. destruct ys; reflexivity.
  - rewrite bind_print.
    destruct (args_rescale args) as [hz|].
    + destruct (hz =? 0).
      * intros _ Hys.
        change (map_result (fun x => Ok x) xs = Ok ys) in Hys.
        rewrite map_result_id in Hys.
        inversion Hys; subst ys. destruct xs; reflexivity.
      * intros Hk Hys. rewrite Hk, bind_lift_ok.
        rewrite (map_result_ext _ (fun x => rescale x base baseP)) in Hys
          by (intros x; now rewrite Hk).
        rewrite Hys. destruct ys; reflexivity.
    + intros _ Hys.
      change (map_result (fun x => Ok x) xs = Ok ys) in Hys.
      rewrite map_result_id in Hys.
      inversion Hys; subst ys. destruct xs; reflexivity.
Qed.

(** C1: for a candidate whose header, at offset i - 6, lies in the
    buffer, the validator returns without output and without error
    exactly when the size field differs from
    6 + 8 + (once_count + repeat_count) * 4; when the sizes agree it
    goes on to the name and, the name offset lying in the buffer, prints
    the button line first.  With the pulse pairs in the buffer as well
    and the conversions of the carrier factor and of the widths
    succeeding, what it prints is the whole block and nothing else: the
    button line, the carrier line, the header line and, for each of the
    two sequences, its title and its widths.  A rejected candidate adds
    nothing to the output of the scan, which continues behind its
    marker. *)
Theorem validator_size_check (b : buffer) (i : Z) (args : Args) :
  6 <= i -> i + 8 <= len b ->
  let size := u16_at b (i - 6) in
  let name_offset := u32_at b (i - 4) in
  let base := u16_at b (i + 2) in
  let once_count := u16_at b (i + 4) in
  let repeat_count := u16_at b (i + 6) in
  (dump_button b i args = ([], Ok tt)
   <-> size <> 6 + 8 + (once_count + repeat_count) * 4) /\
  (size = 6 + 8 + (once_count + repeat_count) * 4 ->
   name_offset < len b ->
   exists rest r,
     dump_button b i args
     = (Button (slice b (name_offset + 1)
                      (name_offset + 1 + byte_at b name_offset)) :: rest, r)) /\
  (size = 6 + 8 + (once_count + repeat_count) * 4 ->
   name_offset < len b ->
   i + 8 + 4 * (once_count + repeat_count) <= len b ->
   forall (baseP : Z) (khz : float) (ys1 ys2 : list Z),
     carrier_shown args base = Ok baseP ->
     to_khz baseP = Ok khz ->
     map_result (width_conversion args base)
                (pairs_at b (i + 8) (Z.to_nat once_count)) = Ok ys1 ->
     map_result (width_conversion args base)
                (pairs_at b (i + 8 + once_count * 4) (Z.to_nat repeat_count))
     = Ok ys2 ->
     dump_button b i args
     = (Button (slice b (name_offset + 1)
                      (name_offset + 1 + byte_at b name_offset))
          :: Carrier khz baseP
          :: Header baseP once_count repeat_count
          :: PairsTitle "once" once_count (args_lirc args)
          :: seq_line args ys1
          ++ PairsTitle "repeat" repeat_count (args_lirc args)
          :: seq_line args ys2,
        Ok tt)) /\
  (size <> 6 + 8 + (once_count + repeat_count) * 4 ->
   forall fuel k_low k_high off,
     find b pat off = i ->
     heuristic b i k_low k_high = Ok true ->
     scan (S fuel) b k_low k_high args off
     = match scan fuel b k_low k_high args (i + 3) with
       | Some (t, r) => Some (mkReport i [] :: t, r)
       | None => None
       end /\
     option_map (fun tr => (stdout (fst tr), snd tr))
                (scan (S fuel) b k_low k_high args off)
     = option_map (fun tr => (stdout (fst tr), snd tr))
                  (scan fuel b k_low k_high args (i + 3))).
Proof.
  intros H6 H8 size name_offset base once_count repeat_count.
  pose proof (dump_button_header b i args H6 H8) as Hd.
  fold size name_offset base once_count repeat_count in Hd.
  change (2 + 2) with 4 in Hd.
  assert (Hj : 0 <= name_offset).
  { unfold name_offset, u32_at.
    pose proof (byte_at_range b (i - 4)). pose proof (byte_at_range b (i - 4 + 1)).
    pose proof (byte_at_range b (i - 4 + 2)). pose proof (byte_at_range b (i - 4 + 3)).
    lia. }
  destruct (Z.eqb_spec size (6 + 8 + (once_count + repeat_count) * 4)) as [E|E].
  - split; [|split; [|split]].
    + split; [|contradiction].
      intros H. rewrite Hd in H.
      destruct (Z_lt_ge_dec name_offset (len b)) as [Hin|Hout].
      * destruct (dump_block_button b i name_offset base
                    once_count repeat_count args (conj Hj Hin)) as (rest & r & Hb).
        rewrite Hb in H. discriminate.
      * rewrite dump_block_name_past_end in H by lia. discriminate.
    + intros _ Hin. rewrite Hd. apply dump_block_button. lia.
    + intros _ Hin Hfit baseP khz ys1 ys2 Hshown Hkhz Hys1 Hys2.
      pose proof (u16_at_range b (i + 4)) as Ho. fold once_count in Ho.
      pose proof (u16_at_range b (i + 6)) as Hr. fold repeat_count in Hr.
      rewrite Hd. unfold dump_block.
      rewrite getitem_in_bounds by lia. rewrite bind_lift_ok, bind_print.
      replace (match args_rescale args with
               | Some hz => if hz =? 0 then ret base else lift (freq2k hz)
               | None => ret base
               end) with (lift (carrier_shown args base))
        by (unfold carrier_shown; destruct (args_rescale args) as [hz|];
            [destruct (hz =? 0)|]; reflexivity).
      rewrite Hshown, !bind_lift_ok, Hkhz, !bind_lift_ok, !bind_print.
      rewrite unpack_seq_ok by lia. rewrite !bind_lift_ok.
      rewrite (unpack_seq_ok b (i + 8 + once_count * 4)) by lia.
      rewrite (dump_pairs_output _ _ _ _ _ _ Hshown Hys1).
      rewrite !bind_ok_pair, !bind_lift_ok.
      rewrite (dump_pairs_output _ _ _ _ _ _ Hshown Hys2).
      rewrite !pairs_at_count by lia.
      reflexivity.
    + contradiction.
  - split; [|split; [|split]].
    + split; [intros _; exact E | intros _; exact Hd].
    + contradiction.
    + contradiction.
    + intros _ fuel k_low k_high off Hfind Hh. subst i.
      pose proof (scan_step_report b k_low k_high args fuel off [] ) as Hs.
      assert (Hfound : find b pat off <> -1) by lia.
      specialize (Hs Hfound Hh Hd). split; [exact Hs|].
      rewrite Hs.
      destruct (scan fuel b k_low k_high args (find b pat off + 3)) as [[t r]|];
        reflexivity.
Qed.

Lemma validator_size_check_witness :
  dump_button (ccf_two 23 80 86) 42 default_args = ([], Ok tt) /\
  (exists rest r,
     dump_button (ccf_two 22 80 86) 42 default_args
     = (Button (map byte_of_Z [80; 111; 119; 101; 114]) :: rest, r)) /\
  (exists khz,
     to_khz 109 = Ok khz /\
     dump_button (ccf_power 103 96) 42 (mkArgs false (Some 38000) 40000)
     = ([Button (map byte_of_Z [80; 111; 119; 101; 114]);
         Carrier khz 109; Header 109 2 0;
         PairsTitle "once" 2 false; Seq [90; 22; 90; 22] 8 true;
         PairsTitle "repeat" 0 false], Ok tt)).
Proof.
  split; [|split].
  - assert (H6 : 6 <= 42) by lia.
    assert (H8 : 42 + 8 <= len (ccf_two 23 80 86)) by (vm_compute; discriminate).
    destruct (validator_size_check (ccf_two 23 80 86) 42 default_args H6 H8)
      as (Hiff & _ & _ & _).
    apply Hiff. vm_compute. discriminate.
  - assert (H6 : 6 <= 42) by lia.
    assert (H8 : 42 + 8 <= len (ccf_two 22 80 86)) by (vm_compute; discriminate).
    destruct (validator_size_check (ccf_two 22 80 86) 42 default_args H6 H8)
      as (_ & Hacc & _ & _).
    apply Hacc; vm_compute; reflexivity.
  - assert (H6 : 6 <= 42) by lia.
    assert (H8 : 42 + 8 <= len (ccf_power 103 96)) by (vm_compute; discriminate).
    destruct (validator_size_check (ccf_power 103 96) 42
                (mkArgs false (Some 38000) 40000) H6 H8)
      as (_ & _ & Hblock & _).
    assert (Hk : exists khz, to_khz 109 = Ok khz)
      by (vm_compute; eexists; reflexivity).
    destruct Hk as [khz Hkhz]. exists khz. split; [exact Hkhz|].
    apply (Hblock ltac:(vm_compute; reflexivity) ltac:(vm_compute; reflexivity)
                  ltac:(vm_compute; discriminate) 109 khz [90; 22; 90; 22] []);
      [vm_compute; reflexivity|exact Hkhz|vm_compute; reflexivity
      |vm_compute; reflexivity].
Defined.

(** ** Truncated candidates *)

(** C3, as the code has it: when a candidate handed to the validator has
    its header outside the buffer, or has a consistent size field and
    either its name offset or the end of its pulse pairs beyond the
    buffer, the validator raises and the scan ends there with that
    exception: the trace of the scan from this candidate on holds this
    candidate only. *)
Theorem truncated_candidate_is_fatal (b : buffer) (k_low k_high : Z) (args : Args)
        (fuel : nat) (off : Z) :
  let i := find b pat off in
  let once_count := u16_at b (i + 4) in
  let repeat_count := u16_at b (i + 6) in
  0 <= off -> i <> -1 ->
  heuristic b i k_low k_high = Ok true ->
  i < 6 \/ len b < i + 8 \/
  (u16_at b (i - 6) = 6 + 8 + (once_count + repeat_count) * 4 /\
   (len b <= u32_at b (i - 4) \/
    len b < i + 8 + 4 * (once_count + repeat_count))) ->
  exists out e,
    dump_button b i args = (out, Raise e) /\
    scan (S fuel) b k_low k_high args off = Some ([mkReport i out], Raise e).
Proof.
  intros i once_count repeat_count Hoff Hfound Hh Htrunc.
  destruct (find_found b off Hoff Hfound) as [Hge Hle]. fold i in Hge, Hle.
  assert (Hraise : exists out e, dump_button b i args = (out, Raise e)).
  { destruct (Z_lt_ge_dec i 6) as [Hlt|H6].
    { exists [], StructError. apply dump_button_before_start. lia. }
    destruct (Z_lt_ge_dec (len b) (i + 8)) as [Hshort|H8].
    { exists [], StructError. apply dump_button_header_past_end; lia. }
    destruct Htrunc as [?|[?|[Hsize Hpast]]]; try lia.
    rewrite dump_button_header by lia.
    fold once_count repeat_count. change (2 + 2) with 4.
    rewrite Hsize, Z.eqb_refl.
    assert (Hj : 0 <= u32_at b (i - 4)).
    { unfold u32_at.
      pose proof (byte_at_range b (i - 4)). pose proof (byte_at_range b (i - 4 + 1)).
      pose proof (byte_at_range b (i - 4 + 2)). pose proof (byte_at_range b (i - 4 + 3)).
      lia. }
    destruct Hpast as [Hname|Hpulses].
    - exists [], IndexError. apply dump_block_name_past_end; lia.
    - apply dump_block_pulses_past_end; try lia;
        [apply (u16_at_range b (i + 4)) | apply (u16_at_range b (i + 6))]. }
  destruct Hraise as (out & e & Hd). exists out, e. split; [exact Hd|].
  now apply scan_step_raise.
Qed.

Lemma truncated_candidate_is_fatal_witness :
  exists out e,
    dump_button (firstn 79 (ccf_two 22 80 64)) 42 default_args = (out, Raise e) /\
    scan 5 (firstn 79 (ccf_two 22 80 64)) 99 106 default_args 41
    = Some ([mkReport 42 out], Raise e).
Proof.
  apply (truncated_candidate_is_fatal (firstn 79 (ccf_two 22 80 64)) 99 106
           default_args 4 41).
  - lia.
  - vm_compute. discriminate.
  - vm_compute. reflexivity.
  - right. right. split; [vm_compute; reflexivity|].
    left. vm_compute. discriminate.
Defined.

(** The claim C3 fails for the characters of a name: the first button
    of [ccf_cut_name] has its name at offset 86 with length byte 3 in a
    buffer of 87 bytes, so the name read runs past the end; no exception
    is raised, the name is printed empty and the button behind it is
    reported as well. *)
Lemma name_past_end_is_not_fatal :
  len ccf_cut_name = 87 /\
  u32_at ccf_cut_name (42 - 4) = 86 /\
  byte_at ccf_cut_name 86 = 3 /\
  exists t,
    search_ccf default_args ccf_cut_name = Some (t, Ok tt) /\
    reported_offsets t = [42; 64] /\
    hd_error (stdout t) = Some (Button []).
Proof.
  repeat split; try (vm_compute; reflexivity).
  eexists. repeat split; vm_compute; reflexivity.
Qed.

(** ** Microseconds and rescaling *)

Lemma dump_pairs_lirc (xs : list Z) (name : string) (base : Z)
      (hz : option Z) (carrier : Z) :
  dump_pairs xs name base (mkArgs true hz carrier)
  = match map_result (fun x => to_usec x base) xs with
    | Ok ys =>
        (PairsTitle name (Z.of_nat (length xs) / 2) true :: usec_line ys, Ok tt)
    | Raise e => ([PairsTitle name (Z.of_nat (length xs) / 2) true], Raise e)
    end.
Proof.
  unfold dump_pairs. cbn [args_lirc].
  rewrite bind_print.
  destruct (map_result (fun x => to_usec x base) xs) as [[|y ys]|e]; reflexivity.
Qed.

Lemma pulse_lines_usec_line (ys : list Z) : pulse_lines (usec_line ys) = usec_line ys.
Proof. destruct ys; reflexivity. Qed.

(** C9: with --lirc and --rescale both given, the widths printed for a
    block are the widths of its two sequences converted to microseconds
    with the carrier factor stored in the block; [dump_pairs] prints the
    same whether --rescale is given or not. *)
Theorem lirc_overrides_rescale (b : buffer) (i hz carrier : Z) (out : list line) :
  let base := u16_at b (i + 2) in
  let once_count := u16_at b (i + 4) in
  let repeat_count := u16_at b (i + 6) in
  6 <= i -> i + 8 <= len b ->
  u16_at b (i - 6) = 6 + 8 + (once_count + repeat_count) * 4 ->
  dump_button b i (mkArgs true (Some hz) carrier) = (out, Ok tt) ->
  (exists ys1 ys2,
     map_result (fun x => to_usec x base)
                (pairs_at b (i + 8) (Z.to_nat once_count)) = Ok ys1 /\
     map_result (fun x => to_usec x base)
                (pairs_at b (i + 8 + once_count * 4) (Z.to_nat repeat_count)) = Ok ys2 /\
     pulse_lines out = usec_line ys1 ++ usec_line ys2) /\
  (forall xs name k,
     dump_pairs xs name k (mkArgs true (Some hz) carrier)
     = dump_pairs xs name k (mkArgs true None carrier)).
Proof.
  intros base once_count repeat_count H6 H8 Hsize Hd.
  split; [|intros; now rewrite !dump_pairs_lirc].
  rewrite dump_button_header in Hd by lia.
  fold base once_count repeat_count in Hd. change (2 + 2) with 4 in Hd.
  rewrite Hsize, Z.eqb_refl in Hd.
  apply dump_block_ok_inv in Hd
    as (l & baseP & khz & out1 & out2 & _ & Hd1 & Hd2 & -> & _);
    try lia; try apply u16_at_range.
  rewrite dump_pairs_lirc in Hd1, Hd2.
  destruct (map_result _ (pairs_at b (i + 8) _)) as [ys1|e1]; [|discriminate].
  destruct (map_result _ (pairs_at b (i + 8 + once_count * 4) _)) as [ys2|e2];
    [|discriminate].
  exists ys1, ys2. repeat split.
  inversion Hd1; inversion Hd2; subst.
  unfold pulse_lines at 1. cbn [filter].
  rewrite filter_app. cbn [filter].
  fold (pulse_lines (usec_line ys1)). fold (pulse_lines (usec_line ys2)).
  now rewrite !pulse_lines_usec_line.
Qed.

Lemma lirc_overrides_rescale_witness :
  exists ys1 ys2,
    map_result (fun x => to_usec x 103) [96; 24; 96; 24] = Ok ys1 /\
    map_result (fun x => to_usec x 103) [] = Ok ys2 /\
    [Seq [2385; 596; 2385; 596] 8 false] = usec_line ys1 ++ usec_line ys2.
Proof.
  assert (H6 : 6 <= 42) by lia.
  assert (H8 : 42 + 8 <= len (ccf_power 103 96)) by (vm_compute; discriminate).
  assert (Hsize : u16_at (ccf_power 103 96) (42 - 6)
                  = 6 + 8 + (u16_at (ccf_power 103 96) (42 + 4)
                             + u16_at (ccf_power 103 96) (42 + 6)) * 4)
    by (vm_compute; reflexivity).
  exact (proj1 (lirc_overrides_rescale (ccf_power 103 96) 42 38000 40000
                  power_lirc_rescale_out
                  H6 H8 Hsize ltac:(vm_compute; reflexivity))).
Defined.

(** ** Truncation of doubles *)

Lemma pow2_pos (e : Z) :
  e < 0 -> Z.pos (Pos.pow 2 (Z.to_pos (- e))) = 2 ^ (- e).
Proof.
  intros He. rewrite Pos2Z.inj_pow. rewrite Z2Pos.id by lia. reflexivity.
Qed.

Lemma int_of_float_trunc (f : float) (v : Q) :
  float_value f = Some v -> int_of_float f = Ok (Qtrunc v).
Proof.
  unfold float_value, int_of_float.
  destruct (Prim2SF f) as [s|s| |s m e]; try discriminate.
  - intros H. inversion H. reflexivity.
  - intros H. assert (Hv := f_equal (fun o => match o with Some q => q | None => v end) H).
    cbv beta iota in Hv. subst v. clear H. f_equal.
    destruct (Z.leb_spec 0 e) as [He|He].
    + assert (Hpos : 0 < Z.pos m * 2 ^ e).
      { apply Z.mul_pos_pos; [lia|]. apply Z.pow_pos_nonneg; lia. }
      destruct s; unfold Qtrunc, Qle_bool, Qceiling, Qfloor, Qopp, inject_Z;
        cbn [Qnum Qden].
      * destruct (Z.leb_spec (0 * 1) (- (Z.pos m * 2 ^ e) * 1)); [lia|].
        rewrite Z.opp_involutive, Z.div_1_r. reflexivity.
      * destruct (Z.leb_spec (0 * 1) (Z.pos m * 2 ^ e * 1)); [|lia].
        now rewrite Z.div_1_r.
    + destruct s; unfold Qtrunc, Qle_bool, Qceiling, Qfloor, Qopp;
        cbn [Qnum Qden]; rewrite pow2_pos by lia.
      * destruct (Z.leb_spec (0 * 2 ^ (- e)) (- Z.pos m * 1)); [lia|].
        now rewrite Z.opp_involutive.
      * destruct (Z.leb_spec (0 * 2 ^ (- e)) (Z.pos m * 1)); [reflexivity|lia].
Qed.

(** C6, as the code has it: whenever the quotient old_k / new_k and x
    convert to doubles and the double product of the two is finite,
    [rescale] returns the value of that product truncated toward zero. *)
Theorem rescale_truncates_double_product (x old_k new_k : Z) (q fx : float) (v : Q) :
  int_truediv old_k new_k = Ok q ->
  float_of_int x = Ok fx ->
  float_value (PrimFloat.mul q fx) = Some v ->
  rescale x old_k new_k = Ok (Qtrunc v).
Proof.
  intros Hq Hx Hv. unfold rescale.
  rewrite Hq, Hx. simpl rbind. now apply int_of_float_trunc.
Qed.

Lemma rescale_truncates_double_product_witness :
  rescale 109 111 109 = Ok (Qtrunc (7810930603720703 # 70368744177664)).
Proof.
  apply (rescale_truncates_double_product 109 111 109
           (PrimFloat.div 111 109) 109%float);
    vm_compute; reflexivity.
Defined.

(** The claim C6 fails: the exact product (111 / 109) × 109 is 111, the
    double product is a little less and truncates to 110.  The run with
    --carrier 38000 --rescale 38000 on a button with carrier factor 111
    and width 109 prints 110. *)
Lemma rescale_is_not_the_exact_floor :
  rescale 109 111 109 = Ok 110 /\
  rescale_exact 109 111 109 = 111 /\
  option_map (fun tr => pulse_lines (stdout (fst tr)))
    (search_ccf (mkArgs false (Some 38000) 38000) (ccf_power 111 109))
  = Some [Seq [110; 24; 110; 24] 8 true].
Proof. repeat split; vm_compute; reflexivity. Qed.

(** ** The fast-reject heuristic *)

Lemma heuristic_in_bounds (b : buffer) (i k_low k_high : Z) :
  0 <= i -> i + 6 < len b ->
  heuristic b i k_low k_high
  = Ok ((byte_at b (i + 4) =? 0) && (byte_at b (i + 6) =? 0)
        && (k_low <? byte_at b (i + 3)) && (byte_at b (i + 3) <? k_high)).
Proof.
  intros H0 H. unfold heuristic.
  rewrite !getitem_in_bounds by lia. simpl rbind.
  destruct (byte_at b (i + 4) =? 0); [|reflexivity].
  destruct (byte_at b (i + 6) =? 0); [|reflexivity].
  destruct (k_low <? byte_at b (i + 3)); reflexivity.
Qed.

Lemma band_inv (carrier k_low k_high : Z) :
  band carrier = Ok (k_low, k_high) ->
  exists k lo hi,
    freq2k carrier = Ok k /\
    int_mul_float k 0.97%float = Ok lo /\ int_of_float lo = Ok k_low /\
    int_mul_float k 1.03%float = Ok hi /\ int_of_float hi = Ok k_high.
Proof.
  unfold band. intros H.
  apply rbind_ok_inv in H as (k & Hk & H).
  apply rbind_ok_inv in H as (lo & Hlo & H).
  apply rbind_ok_inv in H as (kl & Hkl & H).
  apply rbind_ok_inv in H as (hi & Hhi & H).
  apply rbind_ok_inv in H as (kh & Hkh & H).
  inversion H; subst. exists k, lo, hi. auto.
Qed.

(** C2, as the code has it: a marker at [i] whose bytes up to [i+6] lie
    in the buffer is handed to the validator exactly when b[i+4] = 0,
    b[i+6] = 0 and k_low < b[i+3] < k_high, both bounds excluded;
    otherwise the pass prints nothing and the search goes on behind the
    marker.  Both bounds are truncated products: k_low = int(k × 0.97)
    and k_high = int(k × 1.03) for k = freq2k(carrier), in double
    precision; for the default 40 kHz they are 99 and 106. *)
Theorem heuristic_strict_band (args : Args) (b : buffer) (k_low k_high off : Z) :
  let i := find b pat off in
  band (args_carrier args) = Ok (k_low, k_high) ->
  0 <= off -> i <> -1 -> i + 6 < len b ->
  (byte_at b (i + 4) = 0 /\ byte_at b (i + 6) = 0 /\
   k_low < byte_at b (i + 3) < k_high ->
   fst (iteration b k_low k_high args off)
   = [mkReport i (fst (dump_button b i args))]) /\
  (~ (byte_at b (i + 4) = 0 /\ byte_at b (i + 6) = 0 /\
      k_low < byte_at b (i + 3) < k_high) ->
   iteration b k_low k_high args off = ([], Ok (Continue (i + 3)))) /\
  (exists k lo hi,
     freq2k (args_carrier args) = Ok k /\
     int_mul_float k 0.97%float = Ok lo /\ int_of_float lo = Ok k_low /\
     int_mul_float k 1.03%float = Ok hi /\ int_of_float hi = Ok k_high) /\
  band (args_carrier default_args) = Ok (99, 106).
Proof.
  intros i Hband Hoff Hfound Hlen.
  destruct (find_found b off Hoff Hfound) as [Hge _]. fold i in Hge.
  pose proof (heuristic_in_bounds b i k_low k_high ltac:(lia) Hlen) as Hh.
  split; [|split; [|split; [now apply band_inv | vm_compute; reflexivity]]].
  - intros (H4 & H6 & Hlo & Hhi).
    unfold iteration. fold i.
    destruct (Z.eqb_spec i (-1)); [contradiction|].
    rewrite Hh, H4, H6. simpl.
    destruct (Z.ltb_spec k_low (byte_at b (i + 3))); [|lia].
    destruct (Z.ltb_spec (byte_at b (i + 3)) k_high); [|lia]. simpl.
    destruct (dump_button b i args) as [out [u|e]]; reflexivity.
  - intros Hnot.
    unfold iteration. fold i.
    destruct (Z.eqb_spec i (-1)); [contradiction|].
    rewrite Hh.
    destruct (Z.eqb_spec (byte_at b (i + 4)) 0); [|reflexivity].
    destruct (Z.eqb_spec (byte_at b (i + 6)) 0); [|reflexivity].
    destruct (Z.ltb_spec k_low (byte_at b (i + 3))); [|reflexivity].
    destruct (Z.ltb_spec (byte_at b (i + 3)) k_high); [|reflexivity].
    exfalso. apply Hnot. lia.
Qed.

Lemma heuristic_strict_band_witness :
  fst (iteration (ccf_power 105 96) 99 106 default_args 41)
  = [mkReport 42 (fst (dump_button (ccf_power 105 96) 42 default_args))] /\
  iteration (ccf_power 106 96) 99 106 default_args 41 = ([], Ok (Continue 45)).
Proof.
  split.
  - apply (heuristic_strict_band default_args (ccf_power 105 96) 99 106 41);
      try (vm_compute; reflexivity); try lia.
    + vm_compute. discriminate.
    + repeat split; vm_compute; reflexivity.
  - apply (heuristic_strict_band default_args (ccf_power 106 96) 99 106 41);
      try (vm_compute; reflexivity); try lia.
    + vm_compute. discriminate.
    + vm_compute. intros (_ & _ & _ & H). discriminate H.
Defined.

(** The claim C2 fails at both ends of the band.  For 40 kHz the claimed
    interval is [99, 107]; a well-formed button whose carrier byte is 106
    or 99 passes the claimed test, is not handed to the validator and is
    not reported. *)
Lemma inclusive_band_counterexample :
  claimed_band 40000 = (99, 107) /\
  band 40000 = Ok (99, 106) /\
  find (ccf_power 106 96) pat 41 = 42 /\
  claimed_heuristic 40000 (ccf_power 106 96) 42 = true /\
  heuristic (ccf_power 106 96) 42 99 106 = Ok false /\
  search_ccf default_args (ccf_power 106 96) = Some ([], Ok tt) /\
  find (ccf_power 99 96) pat 41 = 42 /\
  claimed_heuristic 40000 (ccf_power 99 96) 42 = true /\
  heuristic (ccf_power 99 96) 42 99 106 = Ok false /\
  search_ccf default_args (ccf_power 99 96) = Some ([], Ok tt).
Proof. repeat split; vm_compute; reflexivity. Qed.

(** A well-formed button inside the band is reported. *)
Example power_button_reported :
  option_map (fun tr => reported_offsets (fst tr))
             (search_ccf default_args (ccf_power 103 96)) = Some [42].
Proof. vm_compute. reflexivity. Qed.

(** ** The round trip of the exact formula

    For the formula of the specification the round trip through another
    carrier factor loses less than b/a + 1 and never gains; the double
    computation of [rescale] can lose more than the exact one. *)

Lemma rescale_exact_div (x old_k new_k : Z) :
  0 < new_k -> rescale_exact x old_k new_k = old_k * x / new_k.
Proof.
  intros Hk. destruct new_k as [|p|p]; try lia.
  unfold rescale_exact, Qfloor, Qdiv, Qmult, Qinv, inject_Z. cbn [Qnum Qden].
  f_equal; lia.
Qed.

Lemma rescale_exact_round_trip (x a b : Z) :
  0 <= x -> 0 < a -> 0 < b ->
  rescale_exact (rescale_exact x a b) b a <= x /\
  a * (x - rescale_exact (rescale_exact x a b) b a) < a + b.
Proof.
  intros Hx Ha Hb. rewrite !rescale_exact_div by lia.
  pose proof (Z.mul_div_le (a * x) b Hb) as H1.
  pose proof (Z.mul_succ_div_gt (a * x) b Hb) as H2.
  set (y := a * x / b) in *.
  pose proof (Z.mul_div_le (b * y) a Ha) as H3.
  pose proof (Z.mul_succ_div_gt (b * y) a Ha) as H4.
  set (z := b * y / a) in *.
  split; nia.
Qed.

Example rescale_round_trip_109 :
  (y <- rescale 109 111 109 ;; rescale y 109 111)%result = Ok 108 /\
  rescale_exact (rescale_exact 109 111 109) 109 111 = 109.
Proof. split; vm_compute; reflexivity. Qed.

(** * Further properties of the program *)

(** ** What [find] finds *)

Lemma starts_with_pat_marker (b : buffer) (p : nat) :
  starts_with pat (skipn p b) = true <-> marker_at b (Z.of_nat p).
Proof.
  unfold marker_at, byte_at, len.
  replace (Z.to_nat (Z.of_nat p)) with (p + 0)%nat by lia.
  replace (Z.to_nat (Z.of_nat p + 1)) with (p + 1)%nat by lia.
  replace (Z.to_nat (Z.of_nat p + 2)) with (p + 2)%nat by lia.
  rewrite <- !nth_skipn.
  assert (Hl : length (skipn p b) = (length b - p)%nat) by apply length_skipn.
  destruct (skipn p b) as [|a0 [|a1 [|a2 l]]]; simpl in Hl |- *.
  - split; [discriminate|]. intros (_ & H & _). lia.
  - split; [intros H; apply andb_true_iff in H as [_ H]; discriminate|].
    intros (_ & H & _). lia.
  - split.
    + intros H. apply andb_true_iff in H as [_ H].
      apply andb_true_iff in H as [_ H]. discriminate.
    + intros (_ & H & _). lia.
  - split.
    + intros H. apply andb_true_iff in H as [E0 H].
      apply andb_true_iff in H as [E1 H].
      apply andb_true_iff in H as [E2 _].
      apply Byte.byte_dec_bl in E0, E1, E2. subst a0 a1 a2.
      repeat split; try lia; reflexivity.
    + intros (_ & _ & E0 & E1 & E2).
      assert (Hz : forall a, byte_to_Z a = 0 -> Byte.eqb x00 a = true).
      { intros a Ha. apply Byte.byte_dec_lb.
        unfold byte_to_Z in Ha.
        assert (Hn : Byte.to_N a = Byte.to_N x00) by (simpl; lia).
        apply (f_equal Byte.of_N) in Hn. rewrite !Byte.of_to_N in Hn.
        congruence. }
      rewrite (Hz a0 E0), (Hz a1 E1), (Hz a2 E2). reflexivity.
Qed.

Lemma find_from_first (sub : list byte) :
  forall (l : list byte) (pos : Z) (k : nat),
  0 <= pos ->
  (find_from sub l pos = -1 \/ pos + Z.of_nat k < find_from sub l pos) ->
  (k < length l)%nat ->
  starts_with sub (skipn k l) = false.
Proof.
  induction l as [|x l IH]; intros pos k Hpos H Hk; [simpl in Hk; lia|].
  cbn [find_from] in H.
  destruct (starts_with sub (x :: l)) eqn:Hs; [lia|].
  destruct k as [|k]; [exact Hs|].
  simpl skipn. apply (IH (pos + 1)); [lia| |simpl in Hk; lia].
  destruct H as [H|H]; [now left|right; lia].
Qed.

Lemma find_no_marker_before (b : buffer) (off p : Z) :
  0 <= off -> off <= p ->
  (find b pat off = -1 \/ p < find b pat off) -> ~ marker_at b p.
Proof.
  intros Hoff Hp H Hm.
  assert (Hlen : p + 3 <= len b) by (destruct Hm as (_ & Hm & _); exact Hm).
  replace p with (Z.of_nat (Z.to_nat p)) in Hm by lia.
  apply starts_with_pat_marker in Hm.
  unfold find in H.
  pose proof (find_from_first pat (skipn (Z.to_nat off) b) off
                (Z.to_nat (p - off)) Hoff) as Hf.
  rewrite skipn_skipn in Hf.
  replace (Z.to_nat (p - off) + Z.to_nat off)%nat with (Z.to_nat p) in Hf by lia.
  rewrite Hf in Hm; [discriminate| |].
  - destruct H as [H|H]; [now left|right; lia].
  - rewrite length_skipn. unfold len in Hlen. lia.
Qed.

Lemma find_is_marker (b : buffer) (off : Z) :
  0 <= off -> find b pat off <> -1 ->
  off <= find b pat off /\ marker_at b (find b pat off).
Proof.
  intros Hoff Hne. destruct (find_found b off Hoff Hne) as [H1 H2].
  destruct (find_marker b off Hoff Hne) as (E0 & E1 & E2).
  split; [exact H1|]. unfold marker_at. repeat split; try assumption; lia.
Qed.

Lemma find_none_iff (b : buffer) (off : Z) :
  0 <= off ->
  (find b pat off = -1 <-> forall p, off <= p -> ~ marker_at b p).
Proof.
  intros Hoff. split.
  - intros Hm p Hp. apply (find_no_marker_before b off p); auto.
  - intros Hno. destruct (Z.eq_dec (find b pat off) (-1)) as [E|E]; [exact E|].
    destruct (find_is_marker b off Hoff E) as [H1 H2]. exfalso. exact (Hno _ H1 H2).
Qed.

(** X1: The marker a pass of the loop looks at is the first place at or
    after the search offset where three zero bytes start, and the loop
    leaves by [break] exactly when no such place is left. *)
Theorem find_first_marker (b : buffer) (k_low k_high : Z) (args : Args) (off : Z) :
  0 <= off ->
  (find b pat off <> -1 ->
   off <= find b pat off /\ marker_at b (find b pat off) /\
   forall p, off <= p < find b pat off -> ~ marker_at b p) /\
  (find b pat off = -1 <-> forall p, off <= p -> ~ marker_at b p) /\
  (iteration b k_low k_high args off = ([], Ok Break)
   <-> forall p, off <= p -> ~ marker_at b p).
Proof.
  intros Hoff.
  split; [|split; [now apply find_none_iff|]].
  - intros Hne. destruct (find_is_marker b off Hoff Hne) as [H1 H2].
    split; [exact H1|split; [exact H2|]].
    intros p Hp. apply (find_no_marker_before b off p); [lia|lia|right; lia].
  - rewrite <- (find_none_iff b off Hoff). unfold iteration.
    destruct (Z.eqb_spec (find b pat off) (-1)) as [E|E]; [tauto|].
    split; [|contradiction].
    destruct (heuristic b (find b pat off) k_low k_high) as [[|]|e];
      [destruct (dump_button b (find b pat off) args) as [out [u|e]]| |];
      discriminate.
Qed.

Lemma find_first_marker_witness :
  find (ccf_power 103 96) pat 41 = 42 /\
  marker_at (ccf_power 103 96) 42 /\
  (forall p, 41 <= p < 42 -> ~ marker_at (ccf_power 103 96) p).
Proof.
  assert (H0 : 0 <= 41) by lia.
  assert (Hne : find (ccf_power 103 96) pat 41 <> -1) by (vm_compute; discriminate).
  destruct (find_first_marker (ccf_power 103 96) 99 106 default_args 41 H0)
    as (Hfound & _ & _).
  destruct (Hfound Hne) as (_ & Hm & Hfirst).
  split; [vm_compute; reflexivity|].
  replace 42 with (find (ccf_power 103 96) pat 41) by (vm_compute; reflexivity).
  split; [exact Hm|exact Hfirst].
Defined.

(** ** What reaches the validator *)

Lemma getitem_ok_inv (b : buffer) (p v : Z) :
  0 <= p -> getitem b p = Ok v -> p < len b /\ v = byte_at b p.
Proof.
  intros Hp H. destruct (Z_lt_ge_dec p (len b)) as [Hin|Hout].
  - rewrite getitem_in_bounds in H by lia. inversion H. auto.
  - rewrite getitem_past_end in H by lia. discriminate.
Qed.

Lemma heuristic_raises (b : buffer) (i k_low k_high : Z) :
  0 <= i ->
  len b <= i + 4 \/ (byte_at b (i + 4) = 0 /\ len b <= i + 6) ->
  heuristic b i k_low k_high = Raise IndexError.
Proof.
  intros Hi H. unfold heuristic.
  destruct (Z_lt_ge_dec (i + 4) (len b)) as [Hin|Hout].
  - destruct H as [H|[H4 H6]]; [lia|].
    rewrite (getitem_in_bounds b (i + 4)) by lia.
    rewrite (getitem_past_end b (i + 6)) by lia.
    simpl. rewrite H4. reflexivity.
  - rewrite (getitem_past_end b (i + 4)) by lia. reflexivity.
Qed.

Lemma heuristic_true_inv (b : buffer) (i k_low k_high : Z) :
  0 <= i -> heuristic b i k_low k_high = Ok true ->
  i + 6 < len b /\ byte_at b (i + 4) = 0 /\ byte_at b (i + 6) = 0 /\
  k_low < byte_at b (i + 3) < k_high.
Proof.
  intros Hi H.
  destruct (Z_lt_ge_dec (i + 6) (len b)) as [Hin|Hout].
  - rewrite heuristic_in_bounds in H by lia. inversion H as [Hb].
    apply andb_true_iff in Hb as [Hb Hhi].
    apply andb_true_iff in Hb as [Hb Hlo].
    apply andb_true_iff in Hb as [H4 H6].
    apply Z.eqb_eq in H4, H6. apply Z.ltb_lt in Hlo, Hhi. repeat split; auto.
  - exfalso. unfold heuristic in H.
    destruct (Z_lt_ge_dec (i + 4) (len b)) as [Hin4|Hout4].
    + rewrite (getitem_in_bounds b (i + 4)) in H by lia.
      rewrite (getitem_past_end b (i + 6)) in H by lia.
      simpl in H. destruct (byte_at b (i + 4) =? 0); discriminate.
    + rewrite (getitem_past_end b (i + 4)) in H by lia. discriminate.
Qed.

Lemma iteration_report_inv (b : buffer) (k_low k_high : Z) (args : Args) (off : Z)
      (t : trace) (r : result step) :
  iteration b k_low k_high args off = (t, r) ->
  t = [] \/
  (find b pat off <> -1 /\
   heuristic b (find b pat off) k_low k_high = Ok true /\
   t = [mkReport (find b pat off) (fst (dump_button b (find b pat off) args))]).
Proof.
  unfold iteration. intros H.
  destruct (Z.eqb_spec (find b pat off) (-1)) as [E|E]; [inversion H; auto|].
  destruct (heuristic b (find b pat off) k_low k_high) as [[|]|e];
    [|inversion H; auto|inversion H; auto].
  right. split; [exact E|]. split; [reflexivity|].
  destruct (dump_button b (find b pat off) args) as [out [u|e]];
    inversion H; reflexivity.
Qed.

Section Candidates.

Variables (b : buffer) (k_low k_high : Z) (args : Args).

Lemma scan_trace_inv :
  forall (fuel : nat) (off : Z) (t : trace) (r : result unit),
  0 <= off -> scan fuel b k_low k_high args off = Some (t, r) ->
  Forall (fun rp => off <= marker rp /\ candidate b k_low k_high args rp) t /\
  StronglySorted (fun x y => x + 3 <= y) (map marker t).
Proof.
  induction fuel as [|fuel IH]; intros off t r Hoff H; [discriminate|].
  cbn [scan] in H.
  destruct (iteration b k_low k_high args off) as [t0 r0] eqn:Hit.
  assert (Hhead : Forall (fun rp => off <= marker rp /\ candidate b k_low k_high args rp) t0 /\
                  Forall (fun rp => marker rp = find b pat off) t0 /\
                  StronglySorted (fun x y => x + 3 <= y) (map marker t0)).
  { destruct (iteration_report_inv _ _ _ _ _ _ _ Hit) as [->|(Hne & Hh & ->)].
    - repeat split; constructor.
    - destruct (find_is_marker b off Hoff Hne) as [Hge Hm].
      assert (Hi : 0 <= find b pat off) by lia.
      destruct (heuristic_true_inv b (find b pat off) k_low k_high Hi Hh)
        as (H6 & E4 & E6 & Hband).
      destruct Hband as [Hlo Hhi].
      split; [|split].
      + constructor; [|constructor]. simpl. split; [exact Hge|].
        unfold candidate. simpl. split; [exact Hm|]. repeat split; assumption.
      + constructor; [reflexivity|constructor].
      + simpl. repeat constructor. }
  destruct Hhead as (Hcand & Hat & Hsorted).
  destruct (iteration_inv _ _ _ _ _ _ _ Hoff Hit)
    as [(_ & -> & ->)|(H1 & H2 & _ & [->|[e ->]])].
  - inversion H; subst. split; constructor.
  - destruct (scan fuel b k_low k_high args (find b pat off + 3))
      as [[t' r']|] eqn:Hrest; [|discriminate].
    destruct (IH (find b pat off + 3) t' r' ltac:(lia) Hrest) as [Hcand' Hsorted'].
    inversion H; subst. split.
    + apply Forall_app. split; [exact Hcand|].
      eapply Forall_impl; [|exact Hcand']. simpl. intros rp [Hge Hc].
      split; [lia|exact Hc].
    + rewrite map_app.
      destruct t0 as [|rp0 [|rp1 t0]]; [exact Hsorted'| |].
      * simpl. constructor; [exact Hsorted'|].
        apply Forall_forall. intros m Hm.
        apply in_map_iff in Hm as (rp & <- & Hin).
        rewrite Forall_forall in Hcand'. destruct (Hcand' rp Hin) as [Hge _].
        inversion Hat; subst. lia.
      * exfalso.
        destruct (iteration_report_inv _ _ _ _ _ _ _ Hit) as [E|(_ & _ & E)];
          discriminate.
  - inversion H; subst. split; assumption.
Qed.

End Candidates.

(** X2: Every call of the validator is made at three zero bytes that are
    followed by a carrier byte strictly inside the band and by zero high
    bytes of the two pair counts, with all seven bytes inside the
    buffer.  So the carrier factor field of every candidate is a single
    byte inside the band and each of its pair counts is below 256; what
    the trace records for it is the output of [dump_button]. *)
Theorem validator_calls_pass_the_test (args : Args) (b : buffer) (k_low k_high : Z)
        (t : trace) (r : result unit) :
  band (args_carrier args) = Ok (k_low, k_high) ->
  search_ccf args b = Some (t, r) ->
  Forall (fun rp =>
            candidate b k_low k_high args rp /\
            k_low < u16_at b (marker rp + 2) < k_high /\
            u16_at b (marker rp + 2) < 256 /\
            u16_at b (marker rp + 4) < 256 /\
            u16_at b (marker rp + 6) < 256) t.
Proof.
  intros Hband H.
  destruct (search_ccf_inv _ _ _ _ H) as [[-> _]|(kl & kh & Hband' & _ & Hscan)];
    [constructor|].
  rewrite Hband in Hband'. inversion Hband'; subst kl kh.
  destruct (scan_trace_inv _ _ _ _ _ _ _ _ (Z.le_refl 0) Hscan) as [Hc _].
  eapply Forall_impl; [|exact Hc]. simpl.
  intros rp [_ Hcand]. split; [exact Hcand|].
  destruct Hcand as (Hm & _ & E4 & E6 & Hb & _).
  destruct Hm as (_ & _ & _ & _ & E2).
  unfold u16_at.
  replace (marker rp + 2 + 1) with (marker rp + 3) by lia.
  rewrite E2, E4, E6.
  pose proof (byte_at_range b (marker rp + 3)).
  pose proof (byte_at_range b (marker rp + 4 + 1)).
  pose proof (byte_at_range b (marker rp + 6 + 1)).
  lia.
Qed.

Lemma validator_calls_pass_the_test_witness :
  Forall (fun rp =>
            candidate (ccf_two 22 80 86) 99 106 default_args rp /\
            99 < u16_at (ccf_two 22 80 86) (marker rp + 2) < 106 /\
            u16_at (ccf_two 22 80 86) (marker rp + 2) < 256 /\
            u16_at (ccf_two 22 80 86) (marker rp + 4) < 256 /\
            u16_at (ccf_two 22 80 86) (marker rp + 6) < 256) two_buttons_trace.
Proof.
  apply (validator_calls_pass_the_test default_args (ccf_two 22 80 86) 99 106
           two_buttons_trace (Ok tt));
    vm_compute; reflexivity.
Defined.

(** X3: Two calls of the validator are never made less than three bytes
    apart: the search for the next marker starts behind the marker just
    looked at, so a marker that starts inside another one is skipped. *)
Theorem validator_calls_three_apart (args : Args) (b : buffer)
        (t : trace) (r : result unit) :
  search_ccf args b = Some (t, r) ->
  StronglySorted (fun x y => x + 3 <= y) (map marker t).
Proof.
  intros H.
  destruct (search_ccf_inv _ _ _ _ H) as [[-> _]|(kl & kh & _ & _ & Hscan)];
    [constructor|].
  now destruct (scan_trace_inv _ _ _ _ _ _ _ _ (Z.le_refl 0) Hscan).
Qed.

Lemma validator_calls_three_apart_witness :
  StronglySorted (fun x y => x + 3 <= y) (map marker two_buttons_trace).
Proof.
  apply (validator_calls_three_apart default_args (ccf_two 22 80 86)
           two_buttons_trace (Ok tt)).
  vm_compute. reflexivity.
Defined.

(** ** Files that end in zero bytes *)

Lemma scan_zero_tail (b : buffer) (k_low k_high : Z) (args : Args) :
  marker_at b (len b - 3) ->
  forall (fuel : nat) (off : Z) (t : trace),
  0 <= off <= len b - 3 ->
  scan fuel b k_low k_high args off <> Some (t, Ok tt).
Proof.
  intros Htail. induction fuel as [|fuel IH]; intros off t Hoff H; [discriminate|].
  cbn [scan] in H.
  assert (Hne : find b pat off <> -1).
  { intros E.
    apply (proj1 (find_none_iff b off (proj1 Hoff)) E (len b - 3));
      [lia|exact Htail]. }
  assert (Hle : find b pat off <= len b - 3).
  { destruct (Z_le_gt_dec (find b pat off) (len b - 3)) as [Hle|Hgt]; [exact Hle|].
    exfalso.
    apply (find_no_marker_before b off (len b - 3)); [lia|lia|right; lia|exact Htail]. }
  destruct (find_is_marker b off (proj1 Hoff) Hne) as [Hge _].
  destruct (Z_lt_ge_dec (find b pat off) (len b - 5)) as [Hfar|Hnear].
  - destruct (iteration b k_low k_high args off) as [t0 r0] eqn:Hit.
    destruct (iteration_inv _ _ _ _ _ _ _ (proj1 Hoff) Hit)
      as [(E & _)|(_ & _ & _ & [->|[e ->]])]; [contradiction| |discriminate].
    destruct (scan fuel b k_low k_high args (find b pat off + 3))
      as [[t' r']|] eqn:Hrest; [|discriminate].
    inversion H; subst.
    apply (IH (find b pat off + 3) t'); [lia|exact Hrest].
  - unfold iteration in H.
    destruct (Z.eqb_spec (find b pat off) (-1)); [contradiction|].
    rewrite heuristic_raises in H; [discriminate|lia|].
    destruct (Z_le_gt_dec (len b) (find b pat off + 4)) as [Hout|Hin]; [now left|].
    right. split; [|lia].
    replace (find b pat off + 4) with (len b - 3 + 2) by lia.
    apply Htail.
Qed.

(** X4: A file whose last three bytes are zero is never scanned to the end:
    whatever the options, the run returns and ends with an exception
    (the test of the scanner reads up to six bytes behind a marker
    without looking at the length of the file). *)
Theorem zero_tail_aborts (args : Args) (b : buffer) :
  marker_at b (len b - 3) ->
  exists (t : trace) (e : exn), search_ccf args b = Some (t, Raise e).
Proof.
  intros Htail.
  destruct (search_ccf_returns args b) as (t & r & H).
  exists t. destruct r as [[]|e]; [exfalso|eauto].
  destruct (search_ccf_inv _ _ _ _ H) as [[_ [e E]]|(kl & kh & _ & _ & Hscan)];
    [discriminate|].
  assert (H3 : 0 <= len b - 3) by (destruct Htail as [H0 _]; exact H0).
  exact (scan_zero_tail b kl kh args Htail _ 0 t (conj (Z.le_refl 0) H3) Hscan).
Qed.

Lemma zero_tail_aborts_witness :
  marker_at (ccf_power 103 96 ++ [x00; x00; x00])
            (len (ccf_power 103 96 ++ [x00; x00; x00]) - 3) /\
  exists (t : trace) (e : exn),
    search_ccf default_args (ccf_power 103 96 ++ [x00; x00; x00])
    = Some (t, Raise e).
Proof.
  assert (H : marker_at (ccf_power 103 96 ++ [x00; x00; x00])
                        (len (ccf_power 103 96 ++ [x00; x00; x00]) - 3)).
  { vm_compute. repeat split; try reflexivity; discriminate. }
  split; [exact H|].
  exact (zero_tail_aborts default_args (ccf_power 103 96 ++ [x00; x00; x00]) H).
Defined.

(** ** Short files *)



(** ** The pulse decoder at its limits *)

(** X6: [unpack_seq] returns all the pairs asked for or raises: a count of
    zero or less gives the empty sequence, a positive count whose 4n
    bytes do not fit in the buffer gives struct.error, never a shorter
    sequence. *)
Theorem unpack_seq_all_or_nothing (b : buffer) (i n : Z) :
  0 <= i <= len b ->
  (n <= 0 -> unpack_seq b i n = Ok []) /\
  (0 < n -> len b < i + 4 * n -> unpack_seq b i n = Raise StructError) /\
  (forall r, unpack_seq b i n = Ok r ->
             length r = (2 * Z.to_nat n)%nat /\ i + 4 * Z.max 0 n <= len b).
Proof.
  intros Hi. split; [|split].
  - intros Hn. unfold unpack_seq.
    replace (Z.to_nat n) with 0%nat by lia. reflexivity.
  - intros Hn Hpast. unfold unpack_seq.
    apply unpack_seq_loop_past_end; lia.
  - intros r H. apply unpack_seq_ok_inv in H as [-> Hfit]; [|exact Hi].
    split; [apply pairs_at_length|lia].
Qed.

Lemma unpack_seq_all_or_nothing_witness :
  unpack_seq (ccf_power 103 96) 50 0 = Ok [] /\
  unpack_seq (ccf_power 103 96) 50 4 = Raise StructError.
Proof.
  assert (Hi : 0 <= 50 <= len (ccf_power 103 96))
    by (split; [lia|vm_compute; discriminate]).
  destruct (unpack_seq_all_or_nothing (ccf_power 103 96) 50 0 Hi) as (H0 & _ & _).
  destruct (unpack_seq_all_or_nothing (ccf_power 103 96) 50 4 Hi) as (_ & H4 & _).
  split; [apply H0; lia|apply H4; [lia|vm_compute; reflexivity]].
Defined.

(** ** --rescale 0 *)

Lemma bind_ext {A B} (c : io A) (k k' : A -> io B) :
  (forall a, k a = k' a) -> bind c k = bind c k'.
Proof. intros H. destruct c as [out [a|e]]; simpl; [now rewrite H|reflexivity]. Qed.

Lemma dump_button_rescale_zero (b : buffer) (i : Z) (l : bool) (c : Z) :
  dump_button b i (mkArgs l (Some 0) c) = dump_button b i (mkArgs l None c).
Proof.
  unfold dump_button. apply bind_ext. intros hdr.
  destruct hdr as [|n [|j [|base [|once_k [|repeat_k [|x t]]]]]]; reflexivity.
Qed.

Lemma scan_rescale_zero (b : buffer) (k_low k_high : Z) (l : bool) (c : Z) :
  forall (fuel : nat) (off : Z),
  scan fuel b k_low k_high (mkArgs l (Some 0) c) off
  = scan fuel b k_low k_high (mkArgs l None c) off.
Proof.
  induction fuel as [|fuel IH]; intros off; [reflexivity|].
  cbn [scan]. unfold iteration. rewrite dump_button_rescale_zero.
  destruct (find b pat off =? -1); [reflexivity|].
  destruct (heuristic _ _ _ _) as [[|]|e]; try reflexivity.
  - destruct (dump_button _ _ _) as [out [u|e]]; [|reflexivity].
    now rewrite IH.
  - now rewrite IH.
Qed.

(** X7: A rescale frequency of 0 counts as absent: the run prints and
    returns what it does without --rescale, it does not divide by
    zero. *)
Theorem rescale_zero_is_ignored (l : bool) (c : Z) (b : buffer) :
  search_ccf (mkArgs l (Some 0) c) b = search_ccf (mkArgs l None c) b.
Proof.
  unfold search_ccf. cbn [args_carrier].
  destruct (band c) as [[k_low k_high]|e]; [|reflexivity].
  destruct b as [|x b']; [reflexivity|].
  destruct (negb (magic_ok (x :: b'))); [reflexivity|].
  apply scan_rescale_zero.
Qed.

(** ** Counts and order of the printed widths *)

Lemma map_result_ok_inv {A B} (f : A -> result B) :
  forall (xs : list A) (ys : list B),
  map_result f xs = Ok ys ->
  length ys = length xs /\
  forall j dx dy, (j < length xs)%nat -> f (nth j xs dx) = Ok (nth j ys dy).
Proof.
  induction xs as [|x xs IH]; intros ys H; simpl in H.
  - inversion H. split; [reflexivity|]. intros j dx dy Hj. simpl in Hj. lia.
  - destruct (f x) as [y|e] eqn:Hx; [|discriminate].
    destruct (map_result f xs) as [ys'|e]; [|discriminate].
    inversion H; subst. destruct (IH ys' eq_refl) as [Hlen Hnth].
    split; [simpl; now rewrite Hlen|].
    intros [|j] dx dy Hj; simpl; [exact Hx|]. apply Hnth. simpl in Hj. lia.
Qed.

Lemma dump_pairs_conversion (xs : list Z) (name : string) (base : Z) (args : Args) :
  snd (dump_pairs xs name base args) = Ok tt ->
  exists ys,
    map_result (width_conversion args base) xs = Ok ys /\
    dump_pairs xs name base args
    = (PairsTitle name (Z.of_nat (length xs) / 2) (args_lirc args)
         :: seq_line args ys, Ok tt).
Proof.
  unfold dump_pairs, width_conversion, seq_line.
  destruct (args_lirc args).
  - rewrite bind_print.
    destruct (map_result (fun x => to_usec x base) xs) as [ys|e]; [|discriminate].
    intros _. exists ys. split; [reflexivity|]. destruct ys; reflexivity.
  - rewrite bind_print.
    destruct (args_rescale args) as [hz|].
    + destruct (hz =? 0).
      * intros _. exists xs. split; [apply map_result_id|]. destruct xs; reflexivity.
      * destruct (freq2k hz) as [k|e]; [|discriminate]. simpl rbind.
        rewrite bind_lift_ok. unfold lift.
        destruct (map_result (fun x => rescale x base k) xs) as [ys|e];
          [|discriminate].
        intros _. exists ys. split; [reflexivity|]. destruct ys; reflexivity.
    + intros _. exists xs. split; [apply map_result_id|]. destruct xs; reflexivity.
Qed.

(** X8: When [dump_pairs] returns, it has printed the title with half the
    number of widths it was given and, unless there are none, one line
    with as many widths as it was given: each is the conversion of the
    width at the same position, whatever the options. *)
Theorem dump_pairs_keeps_count_and_order (xs : list Z) (name : string) (base : Z)
        (args : Args) (out : list line) :
  dump_pairs xs name base args = (out, Ok tt) ->
  exists ys,
    out = PairsTitle name (Z.of_nat (length xs) / 2) (args_lirc args)
            :: seq_line args ys /\
    length ys = length xs /\
    forall j, (j < length xs)%nat ->
              width_conversion args base (nth j xs 0) = Ok (nth j ys 0).
Proof.
  intros H.
  destruct (dump_pairs_conversion xs name base args) as (ys & Hys & Hd).
  { now rewrite H. }
  exists ys. rewrite Hd in H. inversion H; subst.
  apply map_result_ok_inv in Hys as [Hlen Hnth].
  repeat split; auto.
Qed.

Lemma dump_pairs_keeps_count_and_order_witness :
  exists ys,
    [PairsTitle "once" 2 false; Seq [90; 22; 90; 22] 8 true]
    = PairsTitle "once" (Z.of_nat (length [96; 24; 96; 24]) / 2) false
        :: seq_line (mkArgs false (Some 38000) 40000) ys /\
    length ys = length [96; 24; 96; 24] /\
    forall j, (j < length [96; 24; 96; 24])%nat ->
              width_conversion (mkArgs false (Some 38000) 40000) 103
                               (nth j [96; 24; 96; 24] 0)
              = Ok (nth j ys 0).
Proof.
  apply (dump_pairs_keeps_count_and_order [96; 24; 96; 24] "once" 103
           (mkArgs false (Some 38000) 40000)).
  vm_compute. reflexivity.
Defined.

(** ** Checks over all bytes and all 16-bit values *)

Lemma all_from_spec (f : Z -> bool) :
  forall (n : nat) (start z : Z),
  all_from f start n = true -> start <= z < start + Z.of_nat n -> f z = true.
Proof.
  induction n as [|n IH]; intros start z H Hz; [lia|].
  cbn [all_from] in H. apply andb_true_iff in H as [Hs Hrest].
  destruct (Z.eq_dec z start) as [->|Hne]; [exact Hs|].
  apply (IH (start + 1)); [exact Hrest|lia].
Qed.

Lemma to_khz_byte (k : Z) : 1 <= k < 256 -> exists khz, to_khz k = Ok khz.
Proof.
  intros Hk.
  assert (H : all_from to_khz_returns 1 255 = true) by (vm_compute; reflexivity).
  apply (all_from_spec _ _ _ k) in H; [|lia].
  unfold to_khz_returns in H. destruct (to_khz k) as [khz|e]; [eauto|discriminate].
Qed.

Lemma self_quotient_byte (k : Z) : 1 <= k < 256 -> int_truediv k k = Ok 1%float.
Proof.
  intros Hk.
  assert (H : all_from self_quotient_is_one 1 255 = true) by (vm_compute; reflexivity).
  apply (all_from_spec _ _ _ k) in H; [|lia].
  unfold self_quotient_is_one in H.
  destruct (int_truediv k k) as [q|e]; [|discriminate].
  apply FloatAxioms.Leibniz.eqb_spec in H. now subst q.
Qed.

Lemma one_times_u16 (x : Z) :
  0 <= x < 65536 ->
  (fx <- float_of_int x ;; int_of_float (PrimFloat.mul 1%float fx))%result = Ok x.
Proof.
  intros Hx.
  assert (H : all_from one_times_is_exact 0 (Z.to_nat 65536) = true) by (vm_compute; reflexivity).
  apply (all_from_spec _ _ _ x) in H; [|lia].
  unfold one_times_is_exact in H.
  destruct (fx <- float_of_int x ;; int_of_float (PrimFloat.mul 1%float fx))%result
    as [r|e]; [|discriminate].
  apply Z.eqb_eq in H. now subst r.
Qed.

(** X9: Rescaling to the carrier factor a block already has changes no
    width: for every 16-bit width and every carrier factor from 1 to 255
    (a block the scanner finds has a one-byte factor) the double
    quotient is 1.0 and the product is exact. *)
Theorem rescale_same_factor (x k : Z) :
  0 <= x < 65536 -> 1 <= k < 256 -> rescale x k k = Ok x.
Proof.
  intros Hx Hk. unfold rescale. rewrite (self_quotient_byte k Hk). simpl rbind.
  exact (one_times_u16 x Hx).
Qed.

Lemma rescale_same_factor_witness : rescale 96 109 109 = Ok 96.
Proof. apply (rescale_same_factor 96 109); lia. Defined.

(** ** The output for a well-formed block *)

Lemma dump_pairs_plain (xs : list Z) (name : string) (base c : Z) :
  dump_pairs xs name base (mkArgs false None c)
  = (PairsTitle name (Z.of_nat (length xs) / 2) false
       :: seq_line (mkArgs false None c) xs, Ok tt).
Proof. unfold dump_pairs. destruct xs; reflexivity. Qed.

(** X10: Without --lirc and --rescale, a candidate whose header, name length
    byte and pulse pairs lie in the buffer, whose size field is
    consistent and whose carrier factor is a byte other than 0 is dumped
    without error as: the name (clipped to the buffer), the carrier
    line, the header line with the three fields as stored, and for each
    of the two sequences the title with its pair count and the widths as
    stored, in file order. *)
Theorem plain_dump_output (b : buffer) (i c : Z) :
  let args := mkArgs false None c in
  let name_offset := u32_at b (i - 4) in
  let base := u16_at b (i + 2) in
  let once_count := u16_at b (i + 4) in
  let repeat_count := u16_at b (i + 6) in
  6 <= i -> i + 8 + 4 * (once_count + repeat_count) <= len b ->
  u16_at b (i - 6) = 6 + 8 + (once_count + repeat_count) * 4 ->
  name_offset < len b ->
  1 <= base < 256 ->
  exists khz,
    to_khz base = Ok khz /\
    dump_button b i args
    = (Button (slice b (name_offset + 1)
                     (name_offset + 1 + byte_at b name_offset))
         :: Carrier khz base
         :: Header base once_count repeat_count
         :: PairsTitle "once" once_count false
         :: seq_line args (pairs_at b (i + 8) (Z.to_nat once_count))
         ++ PairsTitle "repeat" repeat_count false
         :: seq_line args (pairs_at b (i + 8 + once_count * 4)
                                    (Z.to_nat repeat_count)),
       Ok tt).
Proof.
  intros args name_offset base once_count repeat_count H6 Hfit Hsize Hname Hbase.
  pose proof (u16_at_range b (i + 4)) as Ho. fold once_count in Ho.
  pose proof (u16_at_range b (i + 6)) as Hr. fold repeat_count in Hr.
  assert (Hj : 0 <= name_offset).
  { unfold name_offset, u32_at.
    pose proof (byte_at_range b (i - 4)). pose proof (byte_at_range b (i - 4 + 1)).
    pose proof (byte_at_range b (i - 4 + 2)). pose proof (byte_at_range b (i - 4 + 3)).
    lia. }
  destruct (to_khz_byte base Hbase) as [khz Hkhz]. exists khz. split; [exact Hkhz|].
  rewrite dump_button_header by lia.
  fold name_offset base once_count repeat_count. change (2 + 2) with 4.
  rewrite Hsize, Z.eqb_refl.
  unfold dump_block. fold args.
  rewrite getitem_in_bounds by lia. rewrite bind_lift_ok, bind_print.
  cbn [args_rescale args]. change (@ret Z base) with (lift (Ok base)).
  rewrite !bind_lift_ok, Hkhz, !bind_lift_ok, !bind_print.
  rewrite unpack_seq_ok by lia. rewrite !bind_lift_ok.
  rewrite (unpack_seq_ok b (i + 8 + once_count * 4)) by lia.
  unfold args. rewrite dump_pairs_plain, !bind_ok_pair, !bind_lift_ok.
  rewrite dump_pairs_plain. rewrite !pairs_at_count by lia.
  reflexivity.
Qed.

Lemma plain_dump_output_witness :
  exists khz,
    to_khz 103 = Ok khz /\
    dump_button (ccf_power 103 96) 42 default_args
    = ([Button (map byte_of_Z [80; 111; 119; 101; 114]);
        Carrier khz 103; Header 103 2 0;
        PairsTitle "once" 2 false; Seq [96; 24; 96; 24] 8 true;
        PairsTitle "repeat" 0 false], Ok tt).
Proof.
  apply (plain_dump_output (ccf_power 103 96) 42 40000);
    try (vm_compute; reflexivity); try lia.
  - vm_compute. discriminate.
  - split; vm_compute; [discriminate|reflexivity].
Defined.

(** X11: With a rescale frequency so high that its carrier factor is 0, a
    candidate with consistent size and a readable name prints the button
    line and then ends the run with ZeroDivisionError: the carrier line
    divides by the new factor. *)
Theorem rescale_factor_zero_aborts (b : buffer) (i hz c : Z) (l : bool) :
  let name_offset := u32_at b (i - 4) in
  6 <= i -> i + 8 <= len b ->
  u16_at b (i - 6) = 6 + 8 + (u16_at b (i + 4) + u16_at b (i + 6)) * 4 ->
  name_offset < len b ->
  hz <> 0 -> freq2k hz = Ok 0 ->
  dump_button b i (mkArgs l (Some hz) c)
  = ([Button (slice b (name_offset + 1)
                    (name_offset + 1 + byte_at b name_offset))],
     Raise ZeroDivisionError).
Proof.
  intros name_offset H6 H8 Hsize Hname Hhz Hk.
  assert (Hj : 0 <= name_offset).
  { unfold name_offset, u32_at.
    pose proof (byte_at_range b (i - 4)). pose proof (byte_at_range b (i - 4 + 1)).
    pose proof (byte_at_range b (i - 4 + 2)). pose proof (byte_at_range b (i - 4 + 3)).
    lia. }
  rewrite dump_button_header by lia.
  fold name_offset. change (2 + 2) with 4. rewrite Hsize, Z.eqb_refl.
  unfold dump_block.
  rewrite getitem_in_bounds by lia. rewrite bind_lift_ok, bind_print.
  cbn [args_rescale].
  destruct (Z.eqb_spec hz 0) as [E|_]; [contradiction|].
  rewrite Hk, bind_lift_ok.
  change (to_khz 0) with (@Raise float ZeroDivisionError).
  reflexivity.
Qed.

Lemma rescale_factor_zero_aborts_witness :
  dump_button (ccf_power 103 96) 42 (mkArgs false (Some 5000000) 40000)
  = ([Button (map byte_of_Z [80; 111; 119; 101; 114])], Raise ZeroDivisionError).
Proof.
  apply (rescale_factor_zero_aborts (ccf_power 103 96) 42 5000000 40000 false);
    try (vm_compute; reflexivity); try lia.
  vm_compute. discriminate.
Defined.

(** ** The text of a sequence *)

Lemma append_nil_r (s : string) : (s ++ "")%string = s.
Proof. induction s as [|c s IH]; simpl; [reflexivity|now rewrite IH]. Qed.

Lemma append_assoc (s1 s2 s3 : string) :
  ((s1 ++ s2) ++ s3)%string = (s1 ++ (s2 ++ s3))%string.
Proof. induction s1 as [|c s1 IH]; simpl; [reflexivity|now rewrite IH]. Qed.

Lemma append_eq_empty (s1 s2 : string) :
  (s1 ++ s2)%string = EmptyString -> s1 = EmptyString /\ s2 = EmptyString.
Proof. destruct s1; simpl; [auto|discriminate]. Qed.

Lemma concat_empty_cons (x : string) (l : list string) :
  String.concat "" (x :: l) = (x ++ String.concat "" l)%string.
Proof. destruct l; simpl; [now rewrite append_nil_r|reflexivity]. Qed.

Lemma concat_empty_app (l1 l2 : list string) :
  String.concat "" (l1 ++ l2)
  = (String.concat "" l1 ++ String.concat "" l2)%string.
Proof.
  induction l1 as [|x l1 IH]; [reflexivity|].
  rewrite <- app_comm_cons, !concat_empty_cons, IH. now rewrite append_assoc.
Qed.

Lemma no_space_append (s1 s2 : string) :
  no_space (s1 ++ s2) = no_space s1 && no_space s2.
Proof.
  induction s1 as [|c s1 IH]; simpl; [reflexivity|].
  now rewrite IH, andb_assoc.
Qed.

Lemma all_space_rep_space (n : nat) : all_space (rep_char Chars.space n) = true.
Proof. induction n as [|n IH]; simpl; [reflexivity|exact IH]. Qed.

Lemma no_space_rep_zero (n : nat) : no_space (rep_char Chars.zero n) = true.
Proof. induction n as [|n IH]; simpl; [reflexivity|exact IH]. Qed.

Lemma split_ws_all_space (w s : string) :
  all_space w = true -> split_ws "" (w ++ s) = split_ws "" s.
Proof.
  induction w as [|c w IH]; simpl; [reflexivity|].
  intros H. apply andb_true_iff in H as [Hc Hw]. rewrite Hc. now apply IH.
Qed.

Lemma split_ws_no_space (core : string) :
  forall cur s, no_space core = true ->
  split_ws cur (core ++ s) = split_ws (cur ++ core) s.
Proof.
  induction core as [|c core IH]; intros cur s H; simpl.
  - now rewrite append_nil_r.
  - simpl in H. apply andb_true_iff in H as [Hc Hcore].
    apply negb_true_iff in Hc. rewrite Hc.
    rewrite IH by exact Hcore. now rewrite append_assoc.
Qed.

(** One numeral followed by white space is the next word. *)
Lemma split_ws_token (pad core sep s : string) :
  all_space pad = true -> no_space core = true -> core <> EmptyString ->
  all_space sep = true -> sep <> EmptyString ->
  split_ws "" ((pad ++ core) ++ sep ++ s) = core :: split_ws "" s.
Proof.
  intros Hpad Hcore Hne Hsep Hsepne.
  rewrite append_assoc, split_ws_all_space by exact Hpad.
  rewrite split_ws_no_space by exact Hcore. simpl append.
  destruct sep as [|c sep]; [contradiction|].
  simpl in Hsep. apply andb_true_iff in Hsep as [Hc Hsep].
  simpl. rewrite Hc.
  destruct core; [contradiction|].
  now rewrite split_ws_all_space.
Qed.

(** *** Hexadecimal numerals *)

Lemma no_space_hex_digits (d : Hexadecimal.uint) :
  no_space (HexadecimalString.NilEmpty.string_of_uint d) = true.
Proof. induction d; simpl; auto. Qed.

Lemma hex_digits_nonnil (n : N) : N.to_hex_uint n <> Hexadecimal.Nil.
Proof.
  destruct n as [|p]; simpl; [discriminate|].
  apply HexadecimalPos.Unsigned.to_uint_nonnil.
Qed.

Lemma hex_string_nonnil (d : Hexadecimal.uint) :
  d <> Hexadecimal.Nil ->
  HexadecimalString.NilZero.string_of_uint d
  = HexadecimalString.NilEmpty.string_of_uint d /\
  HexadecimalString.NilEmpty.string_of_uint d <> EmptyString /\
  exists c t, HexadecimalString.NilEmpty.string_of_uint d = String c t /\
              Ascii.eqb c Chars.minus = false.
Proof.
  intros Hd. destruct d; try contradiction; simpl;
    (split; [reflexivity|split; [discriminate|eauto]]).
Qed.

Lemma uint_of_padded (k : nat) (d : Hexadecimal.uint) :
  HexadecimalString.NilEmpty.uint_of_string
    (rep_char Chars.zero k ++ HexadecimalString.NilEmpty.string_of_uint d)
  = Some (pad_zero k d).
Proof.
  induction k as [|k IH]; simpl.
  - apply HexadecimalString.NilEmpty.usu.
  - rewrite IH. reflexivity.
Qed.

Lemma of_hex_uint_padded (k : nat) (d : Hexadecimal.uint) :
  Pos.of_hex_uint (pad_zero k d) = Pos.of_hex_uint d.
Proof. induction k as [|k IH]; simpl; [reflexivity|exact IH]. Qed.

Lemma padded_head (k : nat) (d : Hexadecimal.uint) :
  d <> Hexadecimal.Nil ->
  exists c t,
    (rep_char Chars.zero k ++ HexadecimalString.NilEmpty.string_of_uint d)%string
    = String c t /\ Ascii.eqb c Chars.minus = false.
Proof.
  intros Hd. destruct k as [|k]; simpl.
  - destruct (hex_string_nonnil d Hd) as (_ & _ & H). exact H.
  - eexists _, _. split; reflexivity.
Qed.

Lemma fmt_04x_value (x : Z) : numeral_value true (fmt_04x x) = Some x.
Proof.
  unfold numeral_value, fmt_04x.
  set (d := N.to_hex_uint (Z.abs_N x)).
  assert (Hd : d <> Hexadecimal.Nil) by apply hex_digits_nonnil.
  destruct (hex_string_nonnil d Hd) as (-> & _ & _).
  assert (Hval : N.of_hex_uint d = Z.abs_N x)
    by apply HexadecimalN.Unsigned.of_to.
  destruct (Z.ltb_spec x 0) as [Hneg|Hpos].
  - set (k := (3 - String.length (HexadecimalString.NilEmpty.string_of_uint d))%nat).
    destruct (padded_head k d Hd) as (c & t & Hs & _).
    unfold HexadecimalString.NilZero.int_of_string.
    unfold Chars.minus at 1. rewrite Ascii.eqb_refl.
    unfold HexadecimalString.NilZero.uint_of_string.
    rewrite Hs, <- Hs, uint_of_padded. simpl option_map.
    unfold Z.of_hex_int, Z.of_hex_uint. rewrite of_hex_uint_padded.
    unfold N.of_hex_uint in Hval. rewrite Hval. f_equal. lia.
  - set (k := (4 - String.length (HexadecimalString.NilEmpty.string_of_uint d))%nat).
    destruct (padded_head k d Hd) as (c & t & Hs & Hc).
    unfold HexadecimalString.NilZero.int_of_string.
    rewrite Hs. unfold Chars.minus in Hc.
    rewrite Hc. unfold HexadecimalString.NilZero.uint_of_string.
    rewrite <- Hs, Hs, <- Hs, uint_of_padded. simpl option_map.
    unfold Z.of_hex_int, Z.of_hex_uint. rewrite of_hex_uint_padded.
    unfold N.of_hex_uint in Hval. rewrite Hval. f_equal. lia.
Qed.

Lemma fmt_04x_solid (x : Z) :
  no_space (fmt_04x x) = true /\ fmt_04x x <> EmptyString.
Proof.
  unfold fmt_04x.
  set (d := N.to_hex_uint (Z.abs_N x)).
  assert (Hd : d <> Hexadecimal.Nil) by apply hex_digits_nonnil.
  destruct (hex_string_nonnil d Hd) as (-> & Hne & _).
  destruct (x <? 0).
  - split; [|discriminate]. simpl.
    now rewrite no_space_append, no_space_rep_zero, no_space_hex_digits.
  - split; [now rewrite no_space_append, no_space_rep_zero, no_space_hex_digits|].
    destruct (rep_char Chars.zero _); [exact Hne|discriminate].
Qed.

(** *** Decimal numerals *)

Lemma no_space_dec_digits (d : Decimal.uint) :
  no_space (DecimalString.NilEmpty.string_of_uint d) = true.
Proof. induction d; simpl; auto. Qed.

Lemma to_int_nonnil (x : Z) :
  Z.to_int x <> Decimal.Pos Decimal.Nil /\ Z.to_int x <> Decimal.Neg Decimal.Nil.
Proof.
  destruct x as [|p|p]; simpl; split; try discriminate;
    intros H; inversion H as [Hp];
    exact (DecimalPos.Unsigned.to_uint_nonnil p Hp).
Qed.

Lemma dec_string_solid (x : Z) :
  no_space (DecimalString.NilZero.string_of_int (Z.to_int x)) = true /\
  DecimalString.NilZero.string_of_int (Z.to_int x) <> EmptyString.
Proof.
  destruct (to_int_nonnil x) as [Hp Hn].
  destruct (Z.to_int x) as [d|d]; simpl.
  - destruct d; try (now contradiction Hp); simpl;
      (split; [apply no_space_dec_digits|discriminate]).
  - split; [|discriminate].
    destruct d; try (now contradiction Hn); simpl; apply no_space_dec_digits.
Qed.

Lemma dec_string_value (x : Z) :
  numeral_value false (DecimalString.NilZero.string_of_int (Z.to_int x)) = Some x.
Proof.
  unfold numeral_value. destruct (to_int_nonnil x) as [Hp Hn].
  rewrite DecimalString.NilZero.isi by assumption.
  simpl. f_equal. apply DecimalZ.of_to.
Qed.

(** *** The whole text *)

(** A formatted width is its numeral, after white space at most. *)
Lemma token_parts (hex : bool) (x : Z) :
  exists pad core,
    (if hex then fmt_04x x else fmt_4d x) = (pad ++ core)%string /\
    all_space pad = true /\ no_space core = true /\ core <> EmptyString /\
    numeral_value hex core = Some x.
Proof.
  destruct hex.
  - exists EmptyString, (fmt_04x x).
    destruct (fmt_04x_solid x) as [Hs Hne].
    repeat split; auto. apply fmt_04x_value.
  - unfold fmt_4d.
    destruct (dec_string_solid x) as [Hs Hne].
    eexists _, _. split; [reflexivity|].
    split; [apply all_space_rep_space|].
    repeat split; auto. apply dec_string_value.
Qed.

Lemma separator_parts (i indent : Z) :
  let seps := if i mod 6 =? 0
              then [String newline (rep_char Chars.space (Z.to_nat indent))]
              else " "%string :: (if i mod 2 =? 0 then [" "%string] else []) in
  all_space (String.concat "" seps) = true /\
  String.concat "" seps <> EmptyString.
Proof.
  destruct (i mod 6 =? 0); [|destruct (i mod 2 =? 0)]; simpl;
    (split; [|discriminate]); try reflexivity.
  apply all_space_rep_space.
Qed.

Lemma format_seq_loop_words (indent : Z) (hex : bool) :
  forall (xs : list Z) (i : Z),
  map (numeral_value hex)
      (split_ws "" (String.concat "" (format_seq_loop xs i indent hex)))
  = map Some xs.
Proof.
  induction xs as [|x xs IH]; intros i; [reflexivity|].
  cbn [format_seq_loop].
  rewrite <- app_comm_cons, concat_empty_cons, concat_empty_app.
  destruct (token_parts hex x) as (pad & core & -> & Hpad & Hcore & Hne & Hval).
  destruct (separator_parts i indent) as [Hsep Hsepne].
  rewrite split_ws_token by assumption.
  cbn [map]. now rewrite Hval, IH.
Qed.

(** X12: The text of a sequence can be read back: split at white space, it
    is one numeral for each width, in the order of the widths, and each
    numeral has the value of its width - in hexadecimal and in decimal,
    for negative widths and for widths of more than four digits too. *)
Theorem format_seq_round_trip (xs : list Z) (indent : Z) (hex : bool) :
  map (numeral_value hex) (words (format_seq xs indent hex)) = map Some xs.
Proof.
  unfold words, format_seq. destruct xs as [|x xs]; [reflexivity|].
  rewrite concat_empty_cons.
  rewrite split_ws_all_space by apply all_space_rep_space.
  apply format_seq_loop_words.
Qed.

(** X13: [format_seq] gives the empty string for the empty sequence only, so
    the line of widths is printed exactly when there is a width. *)
Theorem format_seq_empty_iff (xs : list Z) (indent : Z) (hex : bool) :
  format_seq xs indent hex = EmptyString <-> xs = [].
Proof.
  split; [|intros ->; reflexivity].
  destruct xs as [|x xs]; [reflexivity|]. intros H. exfalso.
  unfold format_seq in H. rewrite concat_empty_cons in H.
  apply append_eq_empty in H as [_ H].
  cbn [format_seq_loop] in H.
  rewrite <- app_comm_cons, concat_empty_cons in H.
  apply append_eq_empty in H as [H _].
  destruct (token_parts hex x) as (pad & core & Htok & _ & _ & Hne & _).
  rewrite Htok in H. apply append_eq_empty in H as [_ H]. contradiction.
Qed.

(** *** Lines *)

Lemma count_char_append (c : Ascii.ascii) (s1 s2 : string) :
  count_char c (s1 ++ s2) = (count_char c s1 + count_char c s2)%nat.
Proof. induction s1 as [|a s1 IH]; simpl; [reflexivity|rewrite IH; lia]. Qed.

Lemma count_newline_no_space (s : string) :
  no_space s = true -> count_char newline s = 0%nat.
Proof.
  induction s as [|a s IH]; simpl; [reflexivity|].
  intros H. apply andb_true_iff in H as [Ha Hs].
  apply negb_true_iff in Ha. unfold is_space in Ha.
  apply orb_false_iff in Ha as [_ Ha]. rewrite Ha. now apply IH.
Qed.

Lemma count_newline_spaces (n : nat) :
  count_char newline (rep_char Chars.space n) = 0%nat.
Proof. induction n as [|n IH]; simpl; [reflexivity|exact IH]. Qed.

Lemma count_newline_token (hex : bool) (x : Z) :
  count_char newline (if hex then fmt_04x x else fmt_4d x) = 0%nat.
Proof.
  destruct hex.
  - apply count_newline_no_space. apply fmt_04x_solid.
  - unfold fmt_4d. rewrite count_char_append, count_newline_spaces.
    apply count_newline_no_space. apply dec_string_solid.
Qed.

Lemma format_seq_loop_lines (indent : Z) (hex : bool) :
  forall (xs : list Z) (i : Z),
  1 <= i ->
  Z.of_nat (count_char newline (String.concat "" (format_seq_loop xs i indent hex)))
  = (i + Z.of_nat (length xs) - 1) / 6 - (i - 1) / 6.
Proof.
  induction xs as [|x xs IH]; intros i Hi.
  - simpl. replace (i + 0 - 1) with (i - 1) by lia. lia.
  - cbn [format_seq_loop].
    rewrite <- app_comm_cons, concat_empty_cons, concat_empty_app.
    rewrite !count_char_append, count_newline_token.
    rewrite !Nat2Z.inj_add, IH by lia. cbn [length].
    replace (i + 1 + Z.of_nat (length xs) - 1) with (i + Z.of_nat (length xs)) by lia.
    replace (i + Z.of_nat (S (length xs)) - 1) with (i + Z.of_nat (length xs)) by lia.
    replace (i + 1 - 1) with i by lia.
    destruct (Z.eqb_spec (i mod 6) 0) as [E|E].
    + simpl String.concat. cbn [count_char].
      rewrite Ascii.eqb_refl, count_newline_spaces.
      assert (Hd : i / 6 = (i - 1) / 6 + 1).
      { pose proof (Z.div_mod i 6 ltac:(lia)).
        pose proof (Z.div_mod (i - 1) 6 ltac:(lia)).
        pose proof (Z.mod_pos_bound (i - 1) 6 ltac:(lia)). lia. }
      lia.
    + assert (Hsep : count_char newline
                       (String.concat ""
                          (" "%string :: (if i mod 2 =? 0 then [" "%string] else [])))
                     = 0%nat)
        by (destruct (i mod 2 =? 0); reflexivity).
      rewrite Hsep.
      assert (Hd : i / 6 = (i - 1) / 6).
      { pose proof (Z.div_mod i 6 ltac:(lia)).
        pose proof (Z.div_mod (i - 1) 6 ltac:(lia)).
        pose proof (Z.mod_pos_bound i 6 ltac:(lia)).
        pose proof (Z.mod_pos_bound (i - 1) 6 ltac:(lia)). lia. }
      lia.
Qed.

Lemma split_lines_no_newline (t : string) :
  forall cur s, count_char newline t = 0%nat ->
  split_lines cur (t ++ s) = split_lines (cur ++ t) s.
Proof.
  induction t as [|c t IH]; intros cur s H; simpl.
  - now rewrite append_nil_r.
  - simpl in H. destruct (Ascii.eqb c newline); [discriminate|].
    rewrite IH by exact H. now rewrite append_assoc.
Qed.

Lemma words_token (pad core : string) :
  all_space pad = true -> no_space core = true -> core <> EmptyString ->
  words (pad ++ core) = [core].
Proof.
  intros Hpad Hcore Hne. unfold words.
  rewrite split_ws_all_space by exact Hpad.
  rewrite <- (append_nil_r core) at 1.
  rewrite split_ws_no_space by exact Hcore. simpl.
  destruct core; [contradiction|reflexivity].
Qed.

Lemma words_all_space (w : string) : all_space w = true -> words w = [].
Proof.
  intros H. unfold words. rewrite <- (append_nil_r w).
  now rewrite split_ws_all_space.
Qed.

Lemma split_lines_loop (indent : Z) (hex : bool) :
  forall (xs : list Z) (i : Z) (cur : string) (acc : list Z),
  1 <= i -> (i - 1) mod 6 = Z.of_nat (length acc) ->
  (forall rest, words (cur ++ rest) = words cur ++ words rest) ->
  map (numeral_value hex) (words cur) = map Some acc ->
  map (fun l => map (numeral_value hex) (words l))
      (split_lines cur (String.concat "" (format_seq_loop xs i indent hex)))
  = map (map Some) (rows_from acc xs).
Proof.
  induction xs as [|x xs IH]; intros i cur acc Hi Hacc Hclosed Hcur.
  - simpl. now rewrite Hcur.
  - cbn [format_seq_loop rows_from].
    rewrite <- app_comm_cons, concat_empty_cons, concat_empty_app.
    pose proof (count_newline_token hex x) as Hnl.
    destruct (token_parts hex x) as (pad & core & Htok & Hpad & Hcore & Hne & Hval).
    rewrite split_lines_no_newline by exact Hnl.
    assert (Hline : map (numeral_value hex)
                        (words (cur ++ (if hex then fmt_04x x else fmt_4d x)))
                    = map Some (acc ++ [x])).
    { rewrite Hclosed, Htok, words_token by assumption.
      rewrite !map_app, Hcur. cbn [map]. now rewrite Hval. }
    destruct (Z.eqb_spec (i mod 6) 0) as [E|E].
    + assert (H5 : length acc = 5%nat).
      { pose proof (Z.div_mod i 6 ltac:(lia)).
        pose proof (Z.div_mod (i - 1) 6 ltac:(lia)).
        pose proof (Z.mod_pos_bound (i - 1) 6 ltac:(lia)). lia. }
      rewrite H5. cbn [Nat.eqb].
      simpl String.concat. cbn [append split_lines].
      rewrite Ascii.eqb_refl.
      rewrite split_lines_no_newline by apply count_newline_spaces.
      cbn [append map]. rewrite Hline. f_equal.
      apply IH.
      * lia.
      * replace (i + 1 - 1) with i by lia. rewrite E. reflexivity.
      * intros rest.
        rewrite (words_all_space (rep_char Chars.space (Z.to_nat indent)))
          by apply all_space_rep_space.
        unfold words. now rewrite split_ws_all_space by apply all_space_rep_space.
      * now rewrite words_all_space by apply all_space_rep_space.
    + assert (H5 : (length acc =? 5)%nat = false).
      { apply Nat.eqb_neq. intros H5.
        pose proof (Z.div_mod i 6 ltac:(lia)).
        pose proof (Z.div_mod (i - 1) 6 ltac:(lia)).
        pose proof (Z.mod_pos_bound i 6 ltac:(lia)). lia. }
      rewrite H5.
      destruct (separator_parts i indent) as [Hsep Hsepne].
      destruct (i mod 6 =? 0) eqn:E6; [apply Z.eqb_eq in E6; contradiction|].
      set (sep := String.concat "" (" "%string :: (if i mod 2 =? 0 then [" "%string] else []))) in *.
      assert (Hsepnl : count_char newline sep = 0%nat)
        by (unfold sep; destruct (i mod 2 =? 0); reflexivity).
      rewrite split_lines_no_newline by exact Hsepnl.
      assert (Hw : forall rest,
                 words ((cur ++ (if hex then fmt_04x x else fmt_4d x)) ++ sep ++ rest)
                 = words cur ++ core :: words rest).
      { intros rest. rewrite append_assoc, Hclosed, Htok. f_equal.
        unfold words. now apply split_ws_token. }
      pose proof (Hw EmptyString) as Hw0. rewrite append_nil_r in Hw0.
      change (words "") with (@nil string) in Hw0.
      apply IH.
      * lia.
      * rewrite length_app. cbn [length].
        pose proof (Z.div_mod i 6 ltac:(lia)).
        pose proof (Z.div_mod (i - 1) 6 ltac:(lia)).
        pose proof (Z.mod_pos_bound i 6 ltac:(lia)).
        pose proof (Z.mod_pos_bound (i - 1) 6 ltac:(lia)).
        replace (i + 1 - 1) with i by lia. lia.
      * intros rest.
        rewrite (append_assoc (cur ++ (if hex then fmt_04x x else fmt_4d x)) sep rest).
        rewrite Hw, Hw0, <- app_assoc. reflexivity.
      * rewrite Hw0, !map_app, Hcur. cbn [map]. now rewrite Hval.
Qed.

Lemma rows_from_short (xs cur : list Z) :
  (length cur + length xs < 6)%nat -> rows_from cur xs = [cur ++ xs].
Proof.
  revert cur. induction xs as [|x xs IH]; intros cur H; cbn [rows_from].
  - now rewrite app_nil_r.
  - cbn [length] in H.
    destruct (Nat.eqb_spec (length cur) 5) as [E|E]; [lia|].
    rewrite IH by (rewrite length_app; cbn [length]; lia).
    now rewrite <- app_assoc.
Qed.

Lemma rows_from_fill (xs cur : list Z) :
  (length cur <= 5)%nat -> (6 <= length cur + length xs)%nat ->
  rows_from cur xs
  = (cur ++ firstn (6 - length cur) xs)
      :: rows_from [] (skipn (6 - length cur) xs).
Proof.
  revert cur. induction xs as [|x xs IH]; intros cur H5 H6; cbn [rows_from].
  - cbn [length] in H6. lia.
  - cbn [length] in H6.
    destruct (Nat.eqb_spec (length cur) 5) as [E|E].
    + rewrite E. reflexivity.
    + rewrite IH by (rewrite ?length_app; cbn [length]; lia).
      rewrite length_app. cbn [length].
      replace (6 - length cur)%nat with (S (6 - (length cur + 1))) by lia.
      cbn [firstn skipn]. now rewrite <- app_assoc.
Qed.

Lemma rows_from_rows (n : nat) :
  forall xs : list Z,
  (length xs < 6 * n)%nat ->
  rows_from [] xs
  = map (fun k => firstn 6 (skipn (6 * k) xs)) (seq 0 (length xs / 6 + 1)).
Proof.
  induction n as [|n IH]; intros xs Hn; [lia|].
  destruct (Nat.lt_ge_cases (length xs) 6) as [Hs|Hl].
  - rewrite rows_from_short by (cbn [length]; lia).
    rewrite Nat.div_small by exact Hs. cbn [Nat.add seq map app Nat.mul skipn].
    now rewrite firstn_all2 by lia.
  - rewrite rows_from_fill by (cbn [length]; lia).
    cbn [length app]. change (6 - 0)%nat with 6%nat.
    rewrite IH by (rewrite length_skipn; lia).
    rewrite length_skipn.
    assert (Hd : (length xs / 6 = (length xs - 6) / 6 + 1)%nat).
    { replace (length xs) with ((length xs - 6) + 1 * 6)%nat at 1 by lia.
      now rewrite Nat.div_add by lia. }
    rewrite Hd.
    replace ((length xs - 6) / 6 + 1 + 1)%nat with (S ((length xs - 6) / 6 + 1)) by lia.
    cbn [seq map]. rewrite <- seq_shift, map_map.
    f_equal. apply map_ext. intros k.
    rewrite skipn_skipn. do 2 f_equal. lia.
Qed.

(** X14: The text of a sequence breaks after every sixth width (three
    pairs to a line) and nowhere else: cut at the newline characters,
    its line k (counted from 0) reads back as the widths 6k+1 to 6k+6 of
    the sequence, the last line as the widths left over (none, when
    their number is a multiple of six); so for n widths there are
    n div 6 newline characters. *)
Theorem format_seq_line_breaks (xs : list Z) (indent : Z) (hex : bool) :
  map (fun l => map (numeral_value hex) (words l))
      (lines (format_seq xs indent hex))
  = map (fun k => map Some (firstn 6 (skipn (6 * k) xs)))
        (seq 0 (length xs / 6 + 1)) /\
  count_char newline (format_seq xs indent hex) = (length xs / 6)%nat.
Proof.
  split.
  - rewrite <- (map_map (fun k => firstn 6 (skipn (6 * k) xs)) (map Some)).
    rewrite <- (rows_from_rows (S (length xs))) by lia.
    unfold lines, format_seq. destruct xs as [|x xs]; [reflexivity|].
    rewrite concat_empty_cons.
    rewrite split_lines_no_newline by apply count_newline_spaces.
    cbn [append]. apply split_lines_loop.
    + lia.
    + reflexivity.
    + intros rest.
      rewrite (words_all_space (rep_char Chars.space (Z.to_nat indent)))
        by apply all_space_rep_space.
      unfold words. now rewrite split_ws_all_space by apply all_space_rep_space.
    + now rewrite words_all_space by apply all_space_rep_space.
  - unfold format_seq. destruct xs as [|x xs]; [reflexivity|].
    rewrite concat_empty_cons, count_char_append, count_newline_spaces.
    rewrite Nat.add_0_l.
    apply Nat2Z.inj. rewrite format_seq_loop_lines by lia.
    rewrite Nat2Z.inj_div.
    replace (1 + Z.of_nat (length (x :: xs)) - 1) with (Z.of_nat (length (x :: xs))) by lia.
    change ((1 - 1) / 6) with 0. change (Z.of_nat 6) with 6. lia.
Qed.

(** ** The band for the usual carriers *)

Lemma band_of_freq2k (freq k : Z) :
  freq2k freq = Ok k -> band freq = band_of_k k.
Proof. intros H. unfold band. rewrite H. reflexivity. Qed.

(** X15: For every expected carrier from 30 kHz to 60 kHz the double
    computations agree with exact arithmetic: k is the floor of
    10^12 / (241246 × carrier), between 69 and 138, and the bounds of
    the band are the floors of 0.97 k and 1.03 k. *)
Theorem band_exact_30_to_60_kHz (freq : Z) :
  30000 <= freq <= 60000 ->
  freq2k freq = Ok (exact_k freq) /\
  69 <= exact_k freq <= 138 /\
  band freq = Ok (97 * exact_k freq / 100, 103 * exact_k freq / 100).
Proof.
  intros Hf.
  assert (Hk : freq2k freq = Ok (exact_k freq)).
  { assert (H : all_from freq2k_is_exact 30000 (Z.to_nat 30001) = true)
      by (vm_compute; reflexivity).
    apply (all_from_spec _ _ _ freq) in H; [|lia].
    unfold freq2k_is_exact in H. destruct (freq2k freq) as [k|e]; [|discriminate].
    apply Z.eqb_eq in H. now subst k. }
  assert (Hrange : 69 <= exact_k freq <= 138).
  { unfold exact_k. split.
    - change 69 with (1000000000000 / (241246 * 60000)).
      apply Z.div_le_compat_l; lia.
    - change 138 with (1000000000000 / (241246 * 30000)).
      apply Z.div_le_compat_l; lia. }
  split; [exact Hk|split; [exact Hrange|]].
  rewrite (band_of_freq2k freq _ Hk).
  assert (H : all_from band_of_k_is_exact 69 70 = true) by (vm_compute; reflexivity).
  apply (all_from_spec _ _ _ (exact_k freq)) in H; [|lia].
  unfold band_of_k_is_exact in H.
  destruct (band_of_k (exact_k freq)) as [[lo hi]|e]; [|discriminate].
  apply andb_true_iff in H as [Hlo Hhi].
  apply Z.eqb_eq in Hlo, Hhi. now subst lo hi.
Qed.

Lemma band_exact_30_to_60_kHz_witness :
  freq2k 38000 = Ok (exact_k 38000) /\
  69 <= exact_k 38000 <= 138 /\
  band 38000 = Ok (97 * exact_k 38000 / 100, 103 * exact_k 38000 / 100).
Proof. apply (band_exact_30_to_60_kHz 38000). lia. Defined.
